(** * abstrastore: the addressing scheme and the transaction log

    A shallow embedding of [pkg/schema/schema.go] (tables, indices and the
    object-store paths they map to) and of the transaction file of the same
    package (the [Transaction] state gate [IsOk] and the step log filled by
    [AddStep]), with the properties the specification states about them.

    Go strings are byte strings: they are embedded as [string], whose
    characters are the 256 byte values, and [len] is [String.length]. *)

From Stdlib Require Import ZArith Ascii Lia DecimalString DecimalPos.
From stdpp Require Import gmap strings list.

Local Open Scope Z_scope.

(** ** Outcomes of Go calls *)

(** A call returns normally or panics; a run-time panic carries its message. *)
Inductive exec (A : Type) : Type :=
| Done (a : A)
| Panicked (msg : string).
Arguments Done {A} a.
Arguments Panicked {A} msg.

(** ** Byte strings: slicing *)

Module GoString.

(** [s[n:]] for [n <= len s]. *)
Fixpoint drop (n : nat) (s : string) : string :=
  match n, s with
  | O, _ => s
  | S n', String _ s' => drop n' s'
  | S _, EmptyString => EmptyString
  end.

(** [s[:n]] for [n <= len s]. *)
Fixpoint take (n : nat) (s : string) : string :=
  match n, s with
  | O, _ => EmptyString
  | S n', String c s' => String c (take n' s')
  | S _, EmptyString => EmptyString
  end.

(** [strings.HasPrefix s sep]: [len s >= len sep && s[:len sep] == sep]. *)
Fixpoint HasPrefix (s sep : string) {struct sep} : bool :=
  match sep, s with
  | EmptyString, _ => true
  | String _ _, EmptyString => false
  | String a sep', String b s' => if Ascii.eqb a b then HasPrefix s' sep' else false
  end.

(** [strings.HasSuffix s suffix]:
    [len s >= len suffix && s[len s - len suffix:] == suffix]. *)
Definition HasSuffix (s suffix : string) : bool :=
  (String.length suffix <=? String.length s)%nat
  && String.eqb (drop (String.length s - String.length suffix) s) suffix.

(** [strings.Index s sep]: the index of the first instance of [sep] in [s],
    or [-1] when [sep] does not occur. *)
Fixpoint Index (s sep : string) : Z :=
  if HasPrefix s sep then 0
  else match s with
       | EmptyString => -1
       | String _ s' => let r := Index s' sep in if r <? 0 then -1 else r + 1
       end.

(** [strings.LastIndex s sep]: the index of the last instance of [sep] in
    [s], or [-1]. *)
Fixpoint LastIndex (s sep : string) : Z :=
  match s with
  | EmptyString => if HasPrefix s sep then 0 else -1
  | String _ s' =>
      let r := LastIndex s' sep in
      if 0 <=? r then r + 1 else if HasPrefix s sep then 0 else -1
  end.

(** The loop of [strings.genSplit] (with [sepSave = 0]): [k] is the number
    of cuts still allowed, [n - 1 - i] in the source. Each round cuts at the
    first separator; the loop leaves when none is found or no cut is left,
    and the rest of the string is the last part. *)
Fixpoint genSplit_loop (k : nat) (s sep : string) : list string :=
  match k with
  | O => [s]
  | S k' =>
      let m := Index s sep in
      if m <? 0 then [s]
      else take (Z.to_nat m) s
             :: genSplit_loop k' (drop (Z.to_nat m + String.length sep) s) sep
  end.

(** [strings.SplitN s sep n] for a separator that is not empty and a count
    [n >= 0]; the source calls it with ["___"] and [3]. [n = 0] gives no part
    at all, and a count above [len s + 1] is lowered to it. (An empty
    separator, which splits between UTF-8 sequences, and a negative count
    are not used by the repository.) *)
Definition SplitN (s sep : string) (n : nat) : list string :=
  match n with
  | O => []
  | S _ =>
      let n' := if (String.length s + 1 <? n)%nat then (String.length s + 1)%nat else n in
      genSplit_loop (n' - 1) s sep
  end.

(** [strings.Split s sep], every part: [genSplit] with the count
    [Count s sep + 1]. The count of separators is at most [len s], and the
    loop leaves by itself once no separator is left. *)
Definition Split (s sep : string) : list string :=
  genSplit_loop (String.length s) s sep.

(** [strings.Contains s substr]. *)
Definition Contains (s substr : string) : bool := 0 <=? Index s substr.

(** [strings.Join elems sep]. *)
Fixpoint Join (elems : list string) (sep : string) : string :=
  match elems with
  | [] => EmptyString
  | a :: rest =>
      match rest with
      | [] => a
      | _ :: _ => a +:+ sep +:+ Join rest sep
      end
  end.

(** *** Lower case *)

Definition isASCIIbyte (c : ascii) : bool := (N_of_ascii c <? 128)%N.

Fixpoint isASCII (s : string) : bool :=
  match s with
  | EmptyString => true
  | String c s' => isASCIIbyte c && isASCII s'
  end.

(** The ASCII branch of [strings.ToLower]: ['A'..'Z'] gets ['a' - 'A'] added,
    any other byte stays. *)
Definition lowerByte (c : ascii) : ascii :=
  let n := N_of_ascii c in
  if ((65 <=? n) && (n <=? 90))%N then ascii_of_N (n + 32) else c.

Fixpoint lowerASCII (s : string) : string :=
  match s with
  | EmptyString => EmptyString
  | String c s' => String (lowerByte c) (lowerASCII s')
  end.

(** [strings.ToLower]. A string of ASCII bytes only is mapped byte by byte.
    Any other string goes through [strings.Map unicode.ToLower], which decodes
    UTF-8 and consults the Unicode case tables; those tables are no part of
    the repository, so that branch is the parameter [unicodeLower]. *)
Definition ToLower (unicodeLower : string -> string) (s : string) : string :=
  if isASCII s then lowerASCII s else unicodeLower s.

(** [fmt.Sprintf "%d"] of an integer. *)
Definition FormatInt (z : Z) : string := NilZero.string_of_int (Z.to_int z).

End GoString.

(** ** [schema.go]: tables, indices and their paths *)

Definition Database := string.

Definition NewDatabase (name : string) : Database := name.

(** A table. In Go [Table.Indices] is a slice of [Index] values and every
    [Index] holds a copy of its table whose slice header points back to the
    same array, as [NewTable] builds them; the embedding keeps the indexed
    field names and rebuilds the indices from them ([Table_Indices]). *)
Record Table := {
  Table_Database : Database;
  Table_Name : string;
  Table_IndexFields : list string
}.

Record Index := {
  Index_Table : Table;
  Index_Field : string
}.

Record DatabaseTableIdTuple := {
  Tuple_Database : string;
  Tuple_Table : string;
  Tuple_Id : string
}.

Definition Table_Indices (t : Table) : list Index :=
  (fun field => {| Index_Table := t; Index_Field := field |}) <$> Table_IndexFields t.

Definition NewTable (database : Database) (name : string) (indices : list string) : Table :=
  {| Table_Database := database; Table_Name := name; Table_IndexFields := indices |}.

(** The package's error values. The three [Transaction...Error] variables are
    the spec's AlreadyCommitted, AlreadyRolledBack and TimedOut; the messages
    built by [fmt.Errorf] are kept by their code and argument: ADB-0032 is
    the spec's TableMismatch, ADB-0033 UnknownIndex and ADB-0034
    MalformedPath. [MarshalError] is an error of [json.Marshal]. *)
Inductive error :=
| TransactionAlreadyCommittedError
| TransactionAlreadyRolledBackError
| TransactionTimedOutError
| ADB_0032 (tuple : DatabaseTableIdTuple)
| ADB_0033 (field : string)
| ADB_0034 (path : string)
| MarshalError (msg : string).

(** A [(value, error)] result of which one side is nil. *)
Inductive result (A : Type) : Type :=
| Ok (a : A)
| Err (e : error).
Arguments Ok {A} a.
Arguments Err {A} e.

Definition Table_pathPrefix (t : Table) : string :=
  Table_Database t +:+ "/" +:+ Table_Name t +:+ "/data".

Definition Table_Path (t : Table) (id : string) : string :=
  Table_pathPrefix t +:+ "/" +:+ id +:+ ".json".

Definition Table_IndicesPath (t : Table) (id : string) : string :=
  Table_pathPrefix t +:+ "/" +:+ id +:+ ".indices".

Fixpoint GetIndex_loop (indices : list Index) (field : string) : result Index :=
  match indices with
  | [] => Err (ADB_0033 field)
  | index :: rest =>
      if String.eqb (Index_Field index) field then Ok index else GetIndex_loop rest field
  end.

Definition Table_GetIndex (t : Table) (field : string) : result Index :=
  GetIndex_loop (Table_Indices t) field.

(** Returns [("", err)] or [(path, nil)]. *)
Definition Table_PathFromIndex (t : Table) (databaseTableIdTuple : DatabaseTableIdTuple)
  : string * option error :=
  if negb (String.eqb (Tuple_Database databaseTableIdTuple) (Table_Database t))
     || negb (String.eqb (Tuple_Table databaseTableIdTuple) (Table_Name t))
  then ("", Some (ADB_0032 databaseTableIdTuple))
  else (Table_pathPrefix t +:+ "/" +:+ Tuple_Id databaseTableIdTuple +:+ ".json", None).

(** The part of [path] after its last slash, all of it when it has none:
    the first statement of [DatabaseTableIdTupleFromPath]. *)
Definition afterLastSlash (path : string) : string :=
  let idx := GoString.LastIndex path "/" in
  if idx =? -1 then path else GoString.drop (Z.to_nat (idx + 1)) path.

Definition DatabaseTableIdTupleFromPath (path : string) : result DatabaseTableIdTuple :=
  let path := afterLastSlash path in
  let parts := GoString.SplitN path "___" 3 in
  if negb (length parts =? 3)%nat then Err (ADB_0034 path)
  else Ok {| Tuple_Database := nth 0 parts "";
             Tuple_Table := nth 1 parts "";
             Tuple_Id := nth 2 parts "" |}.

Definition Index_PathPrefix (i : Index) : string :=
  Table_Database (Index_Table i) +:+ "/" +:+ Table_Name (Index_Table i)
    +:+ "/indices/" +:+ Index_Field i.

(** [for len(fieldValue) < 2 { fieldValue = "_" + fieldValue }]: each round
    adds one byte, so two rounds are enough ([pad_loop_length]). *)
Fixpoint pad_loop (fuel : nat) (fieldValue : string) : string :=
  match fuel with
  | O => fieldValue
  | S fuel' =>
      if (String.length fieldValue <? 2)%nat then pad_loop fuel' ("_" +:+ fieldValue)
      else fieldValue
  end.

Section Addressing.

(** [strings.ToLower] on strings that are not pure ASCII (see
    [GoString.ToLower]). *)
Variable unicodeLower : string -> string.

(** The slice [fieldValue[:2]] panics when the lower-cased value has fewer
    than two bytes. *)
Definition Index_PathNoId (i : Index) (fieldValue : string) : exec string :=
  let fieldValue := pad_loop 2 fieldValue in
  let fieldValue := GoString.ToLower unicodeLower fieldValue in
  if (String.length fieldValue <? 2)%nat
  then Panicked "slice bounds out of range [:2]"
  else Done (Index_PathPrefix i +:+ "/" +:+ GoString.take 2 fieldValue +:+ "/" +:+ fieldValue).

Definition Index_Path (i : Index) (fieldValue entityId : string) : exec string :=
  let database_table_id :=
    Table_Database (Index_Table i) +:+ "___" +:+ Table_Name (Index_Table i)
      +:+ "___" +:+ entityId in
  match Index_PathNoId i fieldValue with
  | Done p => Done (p +:+ "/" +:+ database_table_id)
  | Panicked msg => Panicked msg
  end.

End Addressing.

(** ** The transaction log *)

Definition TX_ID : string := "Tx-Id".
Definition LAST_MODIFIED : string := "Last-Modified".
Definition TIMESTAMP_ID_SEPARATOR : string := "___".
Definition TRANSACTIONS_ROOT : string := "transactions/".

(** A [*TransactionStep]: the address of a step object in the store of
    allocated steps. *)
Definition ptr := nat.

(** An instant of [time.Time], in nanoseconds since the Unix epoch, and a
    [time.Duration], in nanoseconds. Both are exact here: the instants a
    clock returns and the sums the code forms are far inside the range in
    which [Time.Add] and [Time.UnixMicro] do not overflow. *)
Definition Time := Z.
Definition Duration := Z.

Definition Time_Add (t : Time) (d : Duration) : Time := t + d.

(** [Time.UnixMicro]: microseconds since the epoch, rounded down. *)
Definition UnixMicro (t : Time) : Z := t / 1000.

Section TransactionLog.

(** The dynamic type [any] of entities and cached objects, and
    [json.Marshal] on it: the encoder is a library of its own, and which
    values it refuses (channels, functions, cyclic data) is a property of
    that type. *)
Context {any : Type}.
Context (json_Marshal : any -> result string).

Record ObjectAndETag := {
  Object : option any;
  ETag : option string
}.

(** [Data] points to a byte slice that [AddStep] has just made and [Entity]
    is the caller's pointer, nil or not; both are kept by their content. *)
Record TransactionStep := {
  Step_Type : string;
  Step_ContentType : string;
  Step_Path : string;
  Step_InitialETag : string;
  Step_InitialVersionId : string;
  Step_UserMetadata : gmap string string;
  Step_Data : string;
  Step_Entity : option any;
  Step_Executed : bool;
  Step_FinalETag : option string;
  Step_FinalVersionId : option string
}.

(** [Steps] is a slice of pointers; the step objects live in the store of the
    [World]. *)
Record Transaction := {
  Id : string;
  Etag : string;
  StartMicroseconds : Z;
  TimeoutMicroseconds : Z;
  Steps : list ptr;
  Cache : gmap string ObjectAndETag;
  State : string
}.

(** What the code reads and writes outside the transaction value: the wall
    clock ([clock k] is the instant the [k]-th call of [time.Now] returns, and
    [ticks] counts the calls made), the source of fresh identifiers of
    [uuid.New], and the step objects allocated so far, a step's address being
    its position (nothing is ever freed). *)
Record World := {
  clock : nat -> Time;
  ticks : nat;
  uuids : nat -> string;
  uuid_calls : nat;
  steps_store : list TransactionStep
}.

Definition time_Now (w : World) : Time * World :=
  (clock w (ticks w),
   {| clock := clock w; ticks := S (ticks w); uuids := uuids w;
      uuid_calls := uuid_calls w; steps_store := steps_store w |}).

Definition uuid_New_String (w : World) : string * World :=
  (uuids w (uuid_calls w),
   {| clock := clock w; ticks := ticks w; uuids := uuids w;
      uuid_calls := S (uuid_calls w); steps_store := steps_store w |}).

(** [&step]: the step escapes to a new object. *)
Definition new_step (step : TransactionStep) (w : World) : ptr * World :=
  (length (steps_store w),
   {| clock := clock w; ticks := ticks w; uuids := uuids w;
      uuid_calls := uuid_calls w; steps_store := steps_store w ++ [step] |}).

Definition NewTransaction (timeout : Duration) (w : World) : Transaction * World :=
  let '(now, w) := time_Now w in
  let '(id, w) := uuid_New_String w in
  ({| Id := id;
      Etag := "*";
      StartMicroseconds := UnixMicro now;
      TimeoutMicroseconds := UnixMicro (Time_Add now timeout);
      Steps := [];
      Cache := ∅;
      State := "InProgress" |}, w).

Definition IsExpired (t : Transaction) (w : World) : bool * World :=
  let '(now, w) := time_Now w in
  (UnixMicro now >? TimeoutMicroseconds t, w).

(** The result is the returned [error], nil being [None], unless the call
    panics. *)
Definition IsOk (t : Transaction) (w : World) : exec (option error) * World :=
  if String.eqb (State t) "Committing" then (Done (Some TransactionAlreadyCommittedError), w)
  else if String.eqb (State t) "RollingBack" then (Done (Some TransactionAlreadyRolledBackError), w)
  else if negb (String.eqb (State t) "InProgress")
  then (Panicked ("ADB-0014 Transaction is in an unknown state: " +:+ State t), w)
  else
    let '(expired, w) := IsExpired t w in
    if expired then (Done (Some TransactionTimedOutError), w)
    else (Done None, w).

Definition GetPath (t : Transaction) : string :=
  TRANSACTIONS_ROOT +:+ GoString.FormatInt (StartMicroseconds t)
    +:+ TIMESTAMP_ID_SEPARATOR +:+ Id t.

Definition GetRootPath (t : Transaction) : string := TRANSACTIONS_ROOT.

(** The step that [AddStep] builds from its arguments, the transaction's id,
    the clock reading [now] and the encoded entity [data]. *)
Definition make_step (t : Transaction) (now : Time)
    (Type_ ContentType Path InitialETag : string) (data : string) (Entity : option any)
  : TransactionStep :=
  {| Step_Type := Type_;
     Step_ContentType := ContentType;
     Step_Path := Path;
     Step_InitialETag := InitialETag;
     Step_InitialVersionId := "";
     Step_UserMetadata :=
       <[TX_ID := Id t]> (<[LAST_MODIFIED := GoString.FormatInt (UnixMicro now)]> ∅);
     Step_Data := data;
     Step_Entity := Entity;
     Step_Executed := false;
     Step_FinalETag := None;
     Step_FinalVersionId := None |}.

(** [data := []byte{}], replaced by [json.Marshal(Entity)] when [Entity] is
    not nil. *)
Definition encode_entity (Entity : option any) : result string :=
  match Entity with
  | None => Ok ""
  | Some e => json_Marshal e
  end.

(** The receiver is a pointer: the call returns its error and leaves the
    transaction as its second component. *)
Definition AddStep (Type_ ContentType Path InitialETag : string) (Entity : option any)
    (t : Transaction) (w : World) : exec (option error) * Transaction * World :=
  match IsOk t w with
  | (Panicked msg, w) => (Panicked msg, t, w)
  | (Done (Some err), w) => (Done (Some err), t, w)
  | (Done None, w) =>
      let '(now, w) := time_Now w in
      match encode_entity Entity with
      | Err err => (Done (Some err), t, w)
      | Ok data =>
          let step := make_step t now Type_ ContentType Path InitialETag data Entity in
          let '(p, w) := new_step step w in
          (Done None,
           {| Id := Id t; Etag := Etag t;
              StartMicroseconds := StartMicroseconds t;
              TimeoutMicroseconds := TimeoutMicroseconds t;
              Steps := Steps t ++ [p];
              Cache := Cache t;
              State := State t |}, w)
      end
  end.

(** [step.SetFinalETagAndVersionId]: the executor's write through a step
    pointer, the only write to a step object after its creation. The
    receiver is a pointer that [AddStep] has put into some [Steps]; for an
    address that holds no object nothing is written. *)
Definition SetFinalETagAndVersionId (step : ptr) (finalETag finalVersionId : option string)
    (w : World) : World :=
  match steps_store w !! step with
  | None => w
  | Some s =>
      {| clock := clock w; ticks := ticks w; uuids := uuids w; uuid_calls := uuid_calls w;
         steps_store :=
           <[step := {| Step_Type := Step_Type s; Step_ContentType := Step_ContentType s;
                        Step_Path := Step_Path s; Step_InitialETag := Step_InitialETag s;
                        Step_InitialVersionId := Step_InitialVersionId s;
                        Step_UserMetadata := Step_UserMetadata s; Step_Data := Step_Data s;
                        Step_Entity := Step_Entity s; Step_Executed := Step_Executed s;
                        Step_FinalETag := finalETag;
                        Step_FinalVersionId := finalVersionId |}]> (steps_store w) |}
  end.

(** The arguments of one call of [AddStep]. *)
Record StepCall := {
  call_Type : string;
  call_ContentType : string;
  call_Path : string;
  call_InitialETag : string;
  call_Entity : option any
}.

Definition AddStep_call (c : StepCall) (t : Transaction) (w : World)
  : exec (option error) * Transaction * World :=
  AddStep (call_Type c) (call_ContentType c) (call_Path c) (call_InitialETag c)
    (call_Entity c) t w.

(** A caller that issues the calls one after the other on the same
    transaction; the result lists what each call returned. *)
Fixpoint AddSteps (calls : list StepCall) (t : Transaction) (w : World)
  : list (exec (option error)) * Transaction * World :=
  match calls with
  | [] => ([], t, w)
  | c :: rest =>
      let '(r, t, w) := AddStep_call c t w in
      let '(rs, t, w) := AddSteps rest t w in
      (r :: rs, t, w)
  end.

End TransactionLog.

Arguments ObjectAndETag : clear implicits.
Arguments TransactionStep : clear implicits.
Arguments Transaction : clear implicits.
Arguments World : clear implicits.
Arguments StepCall : clear implicits.

(** A sample entity type for the examples: an integer is encoded as its
    decimal digits, a channel is a value [json.Marshal] refuses. *)
Inductive sample_entity :=
| IntValue (z : Z)
| ChanValue.

Definition sample_Marshal (e : sample_entity) : result string :=
  match e with
  | IntValue z => Ok (GoString.FormatInt z)
  | ChanValue => Err (MarshalError "json: unsupported type: chan int")
  end.

(** A world whose clock starts at [start] and advances by one microsecond
    per reading. *)
Definition sample_world (start : Time) : World sample_entity :=
  {| clock := fun k => start + 1000 * Z.of_nat k; ticks := 0;
     uuids := fun k => "tx-" +:+ GoString.FormatInt (Z.of_nat k); uuid_calls := 0;
     steps_store := [] |}.

(** A transaction in the given state, started at second 1 700 000 000 with a
    timeout of five seconds. *)
Definition sample_tx (state : string) : Transaction sample_entity :=
  {| Id := "tx-0"; Etag := "*";
     StartMicroseconds := 1700000000000000;
     TimeoutMicroseconds := 1700000005000000;
     Steps := []; Cache := ∅; State := state |}.

Definition sample_call (path : string) (e : option sample_entity) : StepCall sample_entity :=
  {| call_Type := "create"; call_ContentType := "application/json"; call_Path := path;
     call_InitialETag := ""; call_Entity := e |}.

Definition shop_orders : Table := NewTable "shop" "orders" ["status"].
Definition status_index : Index := {| Index_Table := shop_orders; Index_Field := "status" |}.

(** The byte [c] occurs in [s]. *)
Fixpoint has_byte (c : ascii) (s : string) : bool :=
  match s with
  | EmptyString => false
  | String b s' => Ascii.eqb c b || has_byte c s'
  end.

(** Names and ids that the file name of an index entry keeps apart: a
    database or table name holds no slash and no separator and does not end
    in an underscore (which would run into the separator after it); an id
    holds no slash. *)
Definition plain_name (s : string) : bool :=
  negb (GoString.Contains s "/") && negb (GoString.Contains s "___")
  && negb (GoString.HasSuffix s "_").

Definition plain_id (s : string) : bool := negb (GoString.Contains s "/").

(** A stand-in for the Unicode branch of [GoString.ToLower] in examples
    whose strings are pure ASCII and never reach it. *)
Definition ascii_only (s : string) : string := s.

(** The Kelvin sign U+212A in UTF-8, three bytes. Its lower case in the
    Unicode tables is the ASCII letter k, one byte. *)
Definition kelvin_sign : string := String "226" (String "132" (String "170" "")).

(** A lower-case map that knows this one entry of the tables. *)
Definition kelvin_lower (s : string) : string :=
  if String.eqb s kelvin_sign then "k" else s.

(** ** The path of a transaction's log entry, read back *)

Module GoLib.

(** [strings.trimLeftByte s c]: drops the bytes [c] at the start. *)
Fixpoint trimLeftByte (s : string) (c : ascii) : string :=
  match s with
  | EmptyString => EmptyString
  | String b s' => if Ascii.eqb b c then trimLeftByte s' c else s
  end.

(** [strings.trimRightByte s c]: drops the bytes [c] at the end. *)
Fixpoint trimRightByte (s : string) (c : ascii) : string :=
  match s with
  | EmptyString => EmptyString
  | String b s' =>
      match trimRightByte s' c with
      | EmptyString => if Ascii.eqb b c then EmptyString else String b EmptyString
      | r => String b r
      end
  end.

(** [strings.Trim s cutset] for a cutset of one ASCII byte, the branch the
    source takes with ["/"]. *)
Definition Trim (s : string) (c : ascii) : string :=
  trimLeftByte (trimRightByte s c) c.

(** The two errors of [strconv.ParseUint], inside its [*NumError]. *)
Inductive NumError :=
| ErrSyntax
| ErrRange.

Definition maxUint64 : Z := 2 ^ 64 - 1.

(** [maxUint64/10 + 1]: from there on [n * 10] overflows. *)
Definition cutoff : Z := maxUint64 / 10 + 1.

(** The loop of [strconv.ParseUint s 10 64] over the bytes of [s], [n]
    being the 64-bit value read so far. A byte that is no decimal digit is a
    syntax error (an underscore too, the base being given); the product and
    the sum are checked for overflow as the source does, with the wrap-around
    of [uint64]. *)
Fixpoint ParseUint_loop (s : string) (n : Z) : Z * option NumError :=
  match s with
  | EmptyString => (n, None)
  | String c s' =>
      let b := Z.of_N (N_of_ascii c) in
      if (48 <=? b) && (b <=? 57) then
        let d := b - 48 in
        if cutoff <=? n then (maxUint64, Some ErrRange)
        else
          let n := (n * 10) mod 2 ^ 64 in
          let n1 := (n + d) mod 2 ^ 64 in
          if (n1 <? n) || (maxUint64 <? n1) then (maxUint64, Some ErrRange)
          else ParseUint_loop s' n1
      else (0, Some ErrSyntax)
  end.

(** [strconv.ParseUint s 10 64]: the value and the error, nil being [None]. *)
Definition ParseUint (s : string) : Z * option NumError :=
  match s with
  | EmptyString => (0, Some ErrSyntax)
  | String _ _ => ParseUint_loop s 0
  end.

End GoLib.

(** What [GetIdAndTimeoutMicrosFromPath] panics with: the run-time error of
    the slice [path[len(TRANSACTIONS_ROOT):]], the message ADB-0015 with the
    path, or the error ADB-0016 that wraps the path and the error of
    [ParseUint]. *)
Inductive transaction_path_panic :=
| slice_bounds_out_of_range
| ADB_0015 (path : string)
| ADB_0016 (path : string) (err : GoLib.NumError).

(** The receiver is not used. The result is the id and the number in front
    of the separator, or the panic. *)
Definition GetIdAndTimeoutMicrosFromPath (path : string)
  : (string * Z) + transaction_path_panic :=
  if (String.length path <? String.length TRANSACTIONS_ROOT)%nat
  then inr slice_bounds_out_of_range
  else
    let filename := GoString.drop (String.length TRANSACTIONS_ROOT) path in
    let filename := GoLib.Trim filename "/" in
    let split := GoString.Split filename TIMESTAMP_ID_SEPARATOR in
    if negb (length split =? 2)%nat then inr (ADB_0015 path)
    else
      let id := nth 1 split "" in
      let timeoutAsString := nth 0 split "" in
      match GoLib.ParseUint timeoutAsString with
      | (timeout, None) => inl (id, timeout)
      | (_, Some err) => inr (ADB_0016 path err)
      end.

(** Every byte is a decimal digit. *)
Fixpoint all_digits (s : string) : bool :=
  match s with
  | EmptyString => true
  | String c s' =>
      (48 <=? Z.of_N (N_of_ascii c)) && (Z.of_N (N_of_ascii c) <=? 57) && all_digits s'
  end.

(** The number that the decimal digits [d] extend [acc] to. *)
Fixpoint decimal_value (d : Decimal.uint) (acc : Z) : Z :=
  match d with
  | Decimal.Nil => acc
  | Decimal.D0 d' => decimal_value d' (10 * acc)
  | Decimal.D1 d' => decimal_value d' (10 * acc + 1)
  | Decimal.D2 d' => decimal_value d' (10 * acc + 2)
  | Decimal.D3 d' => decimal_value d' (10 * acc + 3)
  | Decimal.D4 d' => decimal_value d' (10 * acc + 4)
  | Decimal.D5 d' => decimal_value d' (10 * acc + 5)
  | Decimal.D6 d' => decimal_value d' (10 * acc + 6)
  | Decimal.D7 d' => decimal_value d' (10 * acc + 7)
  | Decimal.D8 d' => decimal_value d' (10 * acc + 8)
  | Decimal.D9 d' => decimal_value d' (10 * acc + 9)
  end.

(** The number of calls in a run that returned nil. *)
Definition is_nil {A : Type} (r : exec (option A)) : bool :=
  match r with
  | Done None => true
  | _ => false
  end.

Fixpoint count_nil {A : Type} (rs : list (exec (option A))) : nat :=
  match rs with
  | [] => 0%nat
  | r :: rs' => ((if is_nil r then 1 else 0) + count_nil rs')%nat
  end.

Section LogInvariant.

Context {any : Type}.

(** The state of a step that no executor has touched. *)
Definition untouched (s : TransactionStep any) : Prop :=
  Step_Executed s = false /\ Step_FinalETag s = None /\ Step_FinalVersionId s = None
  /\ Step_InitialVersionId s = "".

(** The log of [t] in the world [w] is in order: its pointers are pairwise
    different, each one is the address of a step object, and that step names
    the transaction in its metadata. *)
Definition log_in_order (t : Transaction any) (w : World any) : Prop :=
  NoDup (Steps t)
  /\ forall p, p ∈ Steps t ->
       exists s, steps_store w !! p = Some s
                 /\ Step_UserMetadata s !! TX_ID = Some (Id t).

End LogInvariant.

(** ** Properties *)

(** *** The embedding on the strings of the specification *)

Example HasPrefix_ex :
  GoString.HasPrefix "___abc" "___" = true /\ GoString.HasPrefix "__" "___" = false.
Proof. split; reflexivity. Qed.

Example Index_ex :
  GoString.Index "shop___orders" "___" = 4 /\ GoString.Index "shop" "___" = -1.
Proof. split; reflexivity. Qed.

Example LastIndex_ex :
  GoString.LastIndex "a/b/c" "/" = 3 /\ GoString.LastIndex "abc" "/" = -1.
Proof. split; reflexivity. Qed.

Example SplitN_ex :
  GoString.SplitN "a___b___c___d" "___" 3 = ["a"; "b"; "c___d"]
  /\ GoString.SplitN "a___b" "___" 3 = ["a"; "b"]
  /\ GoString.Split "a___b___c___d" "___" = ["a"; "b"; "c"; "d"].
Proof. repeat split; reflexivity. Qed.

Example ToLower_ex : forall u, GoString.ToLower u "SHIPPED_1" = "shipped_1".
Proof. reflexivity. Qed.

Example FormatInt_ex :
  GoString.FormatInt 0 = "0"
  /\ GoString.FormatInt 1700000000000000 = "1700000000000000"
  /\ GoString.FormatInt (-5) = "-5".
Proof. repeat split; reflexivity. Qed.

Example scenario_paths : forall u,
  Table_Path shop_orders "123" = "shop/orders/data/123.json"
  /\ Index_Path u status_index "SHIPPED" "123"
     = Done "shop/orders/indices/status/sh/shipped/shop___orders___123"
  /\ DatabaseTableIdTupleFromPath "shop/orders/indices/status/sh/shipped/shop___orders___123"
     = Ok {| Tuple_Database := "shop"; Tuple_Table := "orders"; Tuple_Id := "123" |}
  /\ Table_GetIndex shop_orders "status" = Ok status_index.
Proof. intros u. repeat split; reflexivity. Qed.

Example AddStep_ex :
  let '(t, w) := NewTransaction 5000000 (sample_world 1700000000000000000) in
  let '(r, t', w') :=
    AddStep sample_Marshal "create" "application/json" "shop/orders/data/123.json" ""
      (Some (IntValue 7)) t w in
  r = Done None /\ Steps t' = [0%nat]
  /\ Step_Data <$> (steps_store w' !! 0%nat) = Some "7"
  /\ Step_UserMetadata <$> (steps_store w' !! 0%nat)
     = Some (<[TX_ID := "tx-0"]> (<[LAST_MODIFIED := "1700000000000002"]> ∅)).
Proof. vm_compute. repeat split; reflexivity. Qed.

(** *** Byte strings *)

Lemma str_app_cons (c : ascii) (s t : string) : String c s +:+ t = String c (s +:+ t).
Proof. reflexivity. Qed.

Lemma str_app_nil_l (s : string) : "" +:+ s = s.
Proof. reflexivity. Qed.

Lemma str_app_assoc (a b c : string) : (a +:+ b) +:+ c = a +:+ (b +:+ c).
Proof. induction a as [|x a IH]; [reflexivity|]. rewrite !str_app_cons. by f_equal. Qed.

Lemma str_length_app (a b : string) :
  String.length (a +:+ b) = (String.length a + String.length b)%nat.
Proof. induction a as [|x a IH]; [reflexivity|]. rewrite str_app_cons. simpl. by f_equal. Qed.

Lemma drop_app_length (a b : string) : GoString.drop (String.length a) (a +:+ b) = b.
Proof. induction a as [|x a IH]; [reflexivity|]. rewrite str_app_cons. exact IH. Qed.

Lemma drop_add (n m : nat) (s : string) :
  GoString.drop (n + m) s = GoString.drop m (GoString.drop n s).
Proof.
  revert s. induction n as [|n IH]; intros s; [reflexivity|].
  destruct s as [|c s]; simpl; [by destruct m|apply IH].
Qed.

Lemma take_app_length (a b : string) : GoString.take (String.length a) (a +:+ b) = a.
Proof. induction a as [|x a IH]; [reflexivity|]. rewrite str_app_cons. simpl. by f_equal. Qed.

Lemma take_drop (n : nat) (s : string) : GoString.take n s +:+ GoString.drop n s = s.
Proof.
  revert s. induction n as [|n IH]; intros [|c s]; try reflexivity.
  simpl. rewrite str_app_cons. by f_equal.
Qed.

Lemma length_drop (n : nat) (s : string) :
  String.length (GoString.drop n s) = (String.length s - n)%nat.
Proof.
  revert s. induction n as [|n IH]; intros [|c s]; simpl; try reflexivity; try lia. apply IH.
Qed.

Lemma HasPrefix_app (sep s : string) : GoString.HasPrefix (sep +:+ s) sep = true.
Proof.
  induction sep as [|a sep IH]; [reflexivity|].
  rewrite str_app_cons. simpl. by rewrite Ascii.eqb_refl.
Qed.

Lemma HasPrefix_true (s sep : string) :
  GoString.HasPrefix s sep = true -> s = sep +:+ GoString.drop (String.length sep) s.
Proof.
  revert s. induction sep as [|a sep IH]; intros s H; [reflexivity|].
  destruct s as [|b s]; [discriminate|]. simpl in H.
  destruct (Ascii.eqb_spec a b) as [->|]; [|discriminate].
  rewrite str_app_cons. simpl. f_equal. by apply IH.
Qed.

Lemma HasPrefix_length (s sep : string) :
  GoString.HasPrefix s sep = true -> (String.length sep <= String.length s)%nat.
Proof.
  intros H. apply HasPrefix_true in H.
  apply (f_equal String.length) in H. rewrite str_length_app in H. lia.
Qed.

(** [Index] is [-1] or the position of an instance of the separator. *)
Lemma Index_found (s sep : string) :
  -1 <= GoString.Index s sep
  /\ (0 <= GoString.Index s sep ->
      GoString.HasPrefix (GoString.drop (Z.to_nat (GoString.Index s sep)) s) sep = true).
Proof.
  induction s as [|c s [IHr IHp]].
  - simpl. destruct (GoString.HasPrefix "" sep) eqn:E; simpl; split; try lia; auto.
  - cbn [GoString.Index]. destruct (GoString.HasPrefix (String c s) sep) eqn:E.
    + split; [lia|]. intros _. exact E.
    + destruct (Z.ltb_spec (GoString.Index s sep) 0) as [Hlt|Hge]; [split; lia|].
      split; [lia|]. intros _.
      replace (Z.to_nat (GoString.Index s sep + 1)) with (S (Z.to_nat (GoString.Index s sep))) by lia.
      simpl. by apply IHp.
Qed.

Lemma Index_bound (s sep : string) :
  0 <= GoString.Index s sep ->
  (Z.to_nat (GoString.Index s sep) + String.length sep <= String.length s)%nat.
Proof.
  intros H. destruct (Index_found s sep) as [_ Hp]. specialize (Hp H).
  apply HasPrefix_length in Hp. rewrite length_drop in Hp.
  destruct sep as [|a sep]; simpl in *; [|lia].
  destruct s; simpl; lia.
Qed.

(** *** The last slash *)

Lemma has_byte_app (c : ascii) (a b : string) :
  has_byte c (a +:+ b) = has_byte c a || has_byte c b.
Proof.
  induction a as [|x a IH]; [reflexivity|].
  rewrite str_app_cons. simpl. rewrite IH. by rewrite orb_assoc.
Qed.

Lemma Index_byte (c : ascii) (s : string) :
  (GoString.Index s (String c "") <? 0) = negb (has_byte c s).
Proof.
  induction s as [|b s IH]; [reflexivity|].
  cbn [GoString.Index GoString.HasPrefix has_byte].
  destruct (Ascii.eqb c b); [reflexivity|]. simpl.
  destruct (Z.ltb_spec (GoString.Index s (String c "")) 0) as [H|H];
    rewrite <- IH; [reflexivity|].
  apply Z.ltb_ge. lia.
Qed.

Lemma Contains_byte (c : ascii) (s : string) :
  GoString.Contains s (String c "") = has_byte c s.
Proof.
  unfold GoString.Contains. pose proof (Index_byte c s) as H.
  destruct (has_byte c s); simpl in H.
  - apply Z.ltb_ge in H. by apply Z.leb_le.
  - apply Z.ltb_lt in H. apply Z.leb_gt. lia.
Qed.

Lemma LastIndex_byte (c : ascii) (s : string) :
  -1 <= GoString.LastIndex s (String c "")
  /\ (0 <=? GoString.LastIndex s (String c "")) = has_byte c s.
Proof.
  induction s as [|b s [IHr IHp]]; [split; [simpl; lia|reflexivity]|].
  cbn [GoString.LastIndex GoString.HasPrefix has_byte]. rewrite <- IHp.
  destruct (Z.leb_spec 0 (GoString.LastIndex s (String c ""))) as [H|H].
  - rewrite orb_true_r. split; [lia|]. apply Z.leb_le. lia.
  - rewrite orb_false_r. destruct (Ascii.eqb c b); split; (lia || reflexivity).
Qed.

Lemma afterLastSlash_none (s : string) : has_byte "/" s = false -> afterLastSlash s = s.
Proof.
  intros H. unfold afterLastSlash.
  destruct (LastIndex_byte "/" s) as [Hr Hp]. rewrite H in Hp. apply Z.leb_gt in Hp.
  replace (GoString.LastIndex s "/") with (-1) by lia. reflexivity.
Qed.

Lemma afterLastSlash_cons (c : ascii) (s : string) :
  has_byte "/" s = true -> afterLastSlash (String c s) = afterLastSlash s.
Proof.
  intros H. unfold afterLastSlash.
  destruct (LastIndex_byte "/" s) as [Hr Hp]. rewrite H in Hp. apply Z.leb_le in Hp.
  cbn [GoString.LastIndex]. apply Z.leb_le in Hp as Hp'. rewrite Hp'.
  destruct (Z.eqb_spec (GoString.LastIndex s "/" + 1) (-1)) as [E|_]; [lia|].
  destruct (Z.eqb_spec (GoString.LastIndex s "/") (-1)) as [E|_]; [lia|].
  replace (Z.to_nat (GoString.LastIndex s "/" + 1 + 1))
    with (S (Z.to_nat (GoString.LastIndex s "/" + 1))) by lia.
  reflexivity.
Qed.

Lemma afterLastSlash_slash (s : string) : afterLastSlash ("/" +:+ s) = afterLastSlash s.
Proof.
  destruct (has_byte "/" s) eqn:H; [by apply afterLastSlash_cons|].
  rewrite (afterLastSlash_none s H). unfold afterLastSlash.
  destruct (LastIndex_byte "/" s) as [Hr Hp]. rewrite H in Hp.
  change ("/" +:+ s) with (String "/" s). cbn [GoString.LastIndex GoString.HasPrefix].
  rewrite Hp. reflexivity.
Qed.

(** Only what follows the last slash counts: a directory prefix is dropped. *)
Lemma afterLastSlash_app (a b : string) :
  afterLastSlash (a +:+ "/" +:+ b) = afterLastSlash b.
Proof.
  induction a as [|c a IH]; [apply afterLastSlash_slash|].
  rewrite str_app_cons, afterLastSlash_cons; [exact IH|].
  rewrite has_byte_app. apply orb_true_r.
Qed.

Lemma afterLastSlash_length (s : string) :
  (String.length (afterLastSlash s) <= String.length s)%nat.
Proof.
  unfold afterLastSlash. destruct (_ =? _); [lia|]. rewrite length_drop. lia.
Qed.

(** *** Separators and parts *)

Lemma Index_HasPrefix (s sep : string) :
  GoString.HasPrefix s sep = true -> GoString.Index s sep = 0.
Proof. intros H. destruct s; simpl; by rewrite H. Qed.

Lemma Index_cons_absent (c : ascii) (s sep : string) :
  GoString.Index (String c s) sep < 0 ->
  GoString.HasPrefix (String c s) sep = false /\ GoString.Index s sep < 0.
Proof.
  cbn [GoString.Index]. destruct (GoString.HasPrefix (String c s) sep); [lia|].
  destruct (Z.ltb_spec (GoString.Index s sep) 0); [auto|].
  pose proof (Index_found s sep). lia.
Qed.

Lemma Index_cons_skip (c : ascii) (s sep : string) :
  GoString.HasPrefix (String c s) sep = false -> 0 <= GoString.Index s sep ->
  GoString.Index (String c s) sep = GoString.Index s sep + 1.
Proof.
  intros Hp Hi. cbn [GoString.Index]. rewrite Hp.
  destruct (Z.ltb_spec (GoString.Index s sep) 0); [lia|reflexivity].
Qed.

Lemma Index_drop_absent (n : nat) (s sep : string) :
  GoString.Index s sep < 0 -> GoString.Index (GoString.drop n s) sep < 0.
Proof.
  revert s. induction n as [|n IH]; intros s H; [exact H|].
  destruct s as [|c s]; [exact H|]. simpl. apply IH.
  by apply Index_cons_absent in H as [_ H].
Qed.

Lemma HasSuffix_cons (c c' x : ascii) (s : string) :
  GoString.HasSuffix (String c (String c' s)) (String x "")
  = GoString.HasSuffix (String c' s) (String x "").
Proof.
  unfold GoString.HasSuffix. simpl. by rewrite Nat.sub_0_r.
Qed.

(** A name that holds no separator and does not end in an underscore is cut
    off exactly at the separator appended to it. *)
Lemma Index_after_name (d rest : string) :
  GoString.Index d "___" < 0 -> GoString.HasSuffix d "_" = false ->
  GoString.Index (d +:+ "___" +:+ rest) "___" = Z.of_nat (String.length d).
Proof.
  induction d as [|c d IH]; intros Hi Hs.
  - rewrite str_app_nil_l. apply Index_HasPrefix, HasPrefix_app.
  - apply Index_cons_absent in Hi as [Hp Hi].
    assert (GoString.HasSuffix d "_" = false) as Hs'.
    { destruct d as [|c' d]; [reflexivity|]. by rewrite HasSuffix_cons in Hs. }
    specialize (IH Hi Hs').
    rewrite str_app_cons, Index_cons_skip; [rewrite IH; simpl String.length; lia| |lia].
    destruct d as [|c2 [|c3 d]].
    + rewrite str_app_nil_l.
      change ("___" +:+ rest) with (String "_" (String "_" (String "_" rest))).
      cbn [GoString.HasPrefix].
      destruct (Ascii.eqb_spec "_" c) as [<-|]; [|reflexivity].
      vm_compute in Hs. discriminate.
    + rewrite HasSuffix_cons in Hs.
      change (String c2 "" +:+ "___" +:+ rest)
        with (String c2 (String "_" (String "_" (String "_" rest)))).
      cbn [GoString.HasPrefix].
      destruct (Ascii.eqb "_" c); [|reflexivity].
      destruct (Ascii.eqb_spec "_" c2) as [<-|]; [|reflexivity].
      vm_compute in Hs. discriminate.
    + rewrite !str_app_cons. cbn [GoString.HasPrefix] in Hp |- *.
      destruct (Ascii.eqb "_" c); [|reflexivity].
      destruct (Ascii.eqb "_" c2); [|reflexivity].
      destruct (Ascii.eqb "_" c3); [discriminate|reflexivity].
Qed.

Lemma genSplit_loop_nonempty (k : nat) (s sep : string) : GoString.genSplit_loop k s sep <> [].
Proof. destruct k; simpl; [done|]. by destruct (_ <? _). Qed.

(** The parts, joined by the separator, give the string back. *)
Lemma genSplit_loop_Join (k : nat) (s sep : string) :
  GoString.Join (GoString.genSplit_loop k s sep) sep = s.
Proof.
  revert s. induction k as [|k IH]; intros s; [reflexivity|].
  cbn [GoString.genSplit_loop].
  destruct (Z.ltb_spec (GoString.Index s sep) 0) as [H|H]; [reflexivity|].
  cbn [GoString.Join].
  destruct (GoString.genSplit_loop k _ sep) eqn:E; [by apply genSplit_loop_nonempty in E|].
  rewrite <- E, IH, drop_add.
  destruct (Index_found s sep) as [_ Hp]. specialize (Hp H).
  rewrite <- (HasPrefix_true _ _ Hp). apply take_drop.
Qed.

(** A bound on the cuts truncates the list of parts and changes no part
    before the last. *)
Lemma genSplit_loop_length (k k' : nat) (s sep : string) :
  (k <= k')%nat ->
  length (GoString.genSplit_loop k s sep)
  = Nat.min (S k) (length (GoString.genSplit_loop k' s sep)).
Proof.
  revert k' s. induction k as [|k IH]; intros k' s Hk.
  - simpl. pose proof (genSplit_loop_nonempty k' s sep).
    destruct (GoString.genSplit_loop k' s sep); [done|]. simpl. lia.
  - destruct k' as [|k']; [lia|]. cbn [GoString.genSplit_loop].
    destruct (_ <? _); [reflexivity|].
    cbn [length]. rewrite (IH k') by lia. lia.
Qed.

Lemma genSplit_loop_take (k k' : nat) (s sep : string) :
  (k <= k')%nat ->
  take k (GoString.genSplit_loop k s sep) = take k (GoString.genSplit_loop k' s sep).
Proof.
  revert k' s. induction k as [|k IH]; intros k' s Hk; [reflexivity|].
  destruct k' as [|k']; [lia|]. cbn [GoString.genSplit_loop].
  destruct (_ <? _); [reflexivity|].
  cbn [take]. f_equal. apply IH. lia.
Qed.

Lemma SplitN_Join (s sep : string) (n : nat) :
  (0 < n)%nat -> GoString.Join (GoString.SplitN s sep n) sep = s.
Proof. intros H. destruct n; [lia|]. apply genSplit_loop_Join. Qed.

(** [SplitN] with the count 3 gives the first three parts of [Split], the
    third one running to the end of the string. *)
Lemma SplitN_3_length (s sep : string) :
  length (GoString.SplitN s sep 3) = Nat.min 3 (length (GoString.Split s sep)).
Proof.
  unfold GoString.SplitN, GoString.Split.
  destruct (Nat.ltb_spec (String.length s + 1) 3) as [H|H].
  - replace (String.length s + 1 - 1)%nat with (String.length s) by lia.
    pose proof (genSplit_loop_length (String.length s) (String.length s) s sep). lia.
  - apply (genSplit_loop_length 2). lia.
Qed.

Lemma SplitN_3_take (s sep : string) :
  take 2 (GoString.SplitN s sep 3) = take 2 (GoString.Split s sep).
Proof.
  unfold GoString.SplitN, GoString.Split.
  destruct (Nat.ltb_spec (String.length s + 1) 3) as [H|H].
  - by replace (String.length s + 1 - 1)%nat with (String.length s) by lia.
  - apply (genSplit_loop_take 2). lia.
Qed.

(** *** Parsing a path back into its tuple *)

Lemma DatabaseTableIdTupleFromPath_app (a b : string) :
  DatabaseTableIdTupleFromPath (a +:+ "/" +:+ b) = DatabaseTableIdTupleFromPath b.
Proof. unfold DatabaseTableIdTupleFromPath. by rewrite afterLastSlash_app. Qed.

(** A successful parse returns three parts that, joined by the separator,
    are the file name. *)
Lemma DatabaseTableIdTupleFromPath_Ok (path : string) (tuple : DatabaseTableIdTuple) :
  DatabaseTableIdTupleFromPath path = Ok tuple ->
  afterLastSlash path
  = Tuple_Database tuple +:+ "___" +:+ Tuple_Table tuple +:+ "___" +:+ Tuple_Id tuple
  /\ GoString.SplitN (afterLastSlash path) "___" 3
     = [Tuple_Database tuple; Tuple_Table tuple; Tuple_Id tuple].
Proof.
  unfold DatabaseTableIdTupleFromPath. intros H.
  pose proof (SplitN_Join (afterLastSlash path) "___" 3 ltac:(lia)) as HJ.
  destruct (GoString.SplitN (afterLastSlash path) "___" 3) as [|a [|b [|c [|? ?]]]];
    try discriminate.
  cbn [length Nat.eqb negb nth] in H. injection H as <-.
  cbn [Tuple_Database Tuple_Table Tuple_Id]. split; [|reflexivity]. by rewrite <- HJ.
Qed.

Lemma GetIndex_loop_spec (t : Table) (fields : list string) (field : string) :
  (In field fields ->
   GetIndex_loop ((fun f => {| Index_Table := t; Index_Field := f |}) <$> fields) field
   = Ok {| Index_Table := t; Index_Field := field |})
  /\ (~ In field fields ->
      GetIndex_loop ((fun f => {| Index_Table := t; Index_Field := f |}) <$> fields) field
      = Err (ADB_0033 field)).
Proof.
  induction fields as [|f fields [IH1 IH2]]; [split; [intros []|reflexivity]|].
  cbn [fmap list_fmap GetIndex_loop Index_Field].
  destruct (String.eqb_spec f field) as [->|Hne]; split.
  - reflexivity.
  - intros H. exfalso. apply H. by left.
  - intros [?|?]; [done|by apply IH1].
  - intros H. apply IH2. intros ?. apply H. by right.
Qed.

(** X3: [GetIndex] returns the index of the field when the table indexes
    it, and fails with ADB-0033 (UnknownIndex) when it does not. *)
Theorem Table_GetIndex_spec (t : Table) (field : string) :
  (In field (Table_IndexFields t) ->
   Table_GetIndex t field = Ok {| Index_Table := t; Index_Field := field |})
  /\ (~ In field (Table_IndexFields t) -> Table_GetIndex t field = Err (ADB_0033 field)).
Proof. apply GetIndex_loop_spec. Qed.

Lemma Table_GetIndex_spec_witness :
  Table_GetIndex (NewTable "crm" "people" ["email"]) "email"
  = Ok {| Index_Table := NewTable "crm" "people" ["email"]; Index_Field := "email" |}
  /\ Table_GetIndex (NewTable "crm" "people" ["email"]) "phone" = Err (ADB_0033 "phone").
Proof.
  split.
  - apply (Table_GetIndex_spec (NewTable "crm" "people" ["email"]) "email"). by left.
  - apply (Table_GetIndex_spec (NewTable "crm" "people" ["email"]) "phone").
    intros [H|[]]. discriminate H.
Defined.

(** C8: [PathFromIndex] fails with ADB-0032 (TableMismatch) exactly when the
    tuple's database or table differs from the table's own, and the error
    comes with the empty path; otherwise it returns the record path of the
    tuple's id, which is [Table_Path], and no error. *)
Theorem Table_PathFromIndex_spec (t : Table) (tuple : DatabaseTableIdTuple) :
  (snd (Table_PathFromIndex t tuple) = Some (ADB_0032 tuple)
   <-> (Tuple_Database tuple <> Table_Database t \/ Tuple_Table tuple <> Table_Name t))
  /\ (Tuple_Database tuple <> Table_Database t \/ Tuple_Table tuple <> Table_Name t ->
      Table_PathFromIndex t tuple = ("", Some (ADB_0032 tuple)))
  /\ (Tuple_Database tuple = Table_Database t /\ Tuple_Table tuple = Table_Name t ->
      Table_PathFromIndex t tuple = (Table_Path t (Tuple_Id tuple), None)).
Proof.
  unfold Table_PathFromIndex, Table_Path.
  destruct (String.eqb_spec (Tuple_Database tuple) (Table_Database t)) as [Hd|Hd];
    destruct (String.eqb_spec (Tuple_Table tuple) (Table_Name t)) as [Hn|Hn]; simpl;
    repeat split; try (intros [?|?]); try (intros [? ?]); intros;
    try reflexivity; try congruence; try discriminate; auto.
Qed.

Lemma Table_PathFromIndex_spec_witness :
  Table_PathFromIndex shop_orders
    {| Tuple_Database := "store"; Tuple_Table := "orders"; Tuple_Id := "123" |}
  = ("", Some (ADB_0032 {| Tuple_Database := "store"; Tuple_Table := "orders"; Tuple_Id := "123" |}))
  /\ Table_PathFromIndex shop_orders
       {| Tuple_Database := "shop"; Tuple_Table := "orders"; Tuple_Id := "123" |}
     = ("shop/orders/data/123.json", None).
Proof.
  split.
  - apply (Table_PathFromIndex_spec shop_orders
             {| Tuple_Database := "store"; Tuple_Table := "orders"; Tuple_Id := "123" |}).
    left. discriminate.
  - apply (Table_PathFromIndex_spec shop_orders
             {| Tuple_Database := "shop"; Tuple_Table := "orders"; Tuple_Id := "123" |}).
    split; reflexivity.
Defined.

(** C4, as the claim states it, fails: a file name with more than two
    separators splits into more than three parts and is accepted all the
    same, the id taking the rest. *)
Lemma more_than_three_parts_accepted :
  GoString.Split (afterLastSlash "shop/orders/indices/status/sh/shipped/shop___orders___12___3") "___"
  = ["shop"; "orders"; "12"; "3"]
  /\ DatabaseTableIdTupleFromPath "shop/orders/indices/status/sh/shipped/shop___orders___12___3"
     = Ok {| Tuple_Database := "shop"; Tuple_Table := "orders"; Tuple_Id := "12___3" |}.
Proof. split; reflexivity. Qed.

(** C4, amended: the parse drops everything up to the last slash and fails
    with ADB-0034 (MalformedPath, carrying the file name) exactly when the
    file name splits on the separator into fewer than three parts. With
    three parts or more it succeeds: database and table are the first two
    parts, and the id is all that follows the second separator, further
    separators included. *)
Theorem DatabaseTableIdTupleFromPath_parts (path : string) :
  (DatabaseTableIdTupleFromPath path = Err (ADB_0034 (afterLastSlash path))
   <-> (length (GoString.Split (afterLastSlash path) "___") < 3)%nat)
  /\ ((3 <= length (GoString.Split (afterLastSlash path) "___"))%nat ->
      exists database table id,
        DatabaseTableIdTupleFromPath path
        = Ok {| Tuple_Database := database; Tuple_Table := table; Tuple_Id := id |}
        /\ GoString.Split (afterLastSlash path) "___" !! 0%nat = Some database
        /\ GoString.Split (afterLastSlash path) "___" !! 1%nat = Some table
        /\ afterLastSlash path = database +:+ "___" +:+ table +:+ "___" +:+ id).
Proof.
  pose proof (SplitN_3_length (afterLastSlash path) "___") as HL.
  pose proof (SplitN_3_take (afterLastSlash path) "___") as HT.
  pose proof (SplitN_Join (afterLastSlash path) "___" 3 ltac:(lia)) as HJ.
  unfold DatabaseTableIdTupleFromPath.
  generalize dependent (GoString.SplitN (afterLastSlash path) "___" 3).
  intros parts HL HT HJ.
  destruct (Nat.eqb_spec (length parts) 3) as [E|E]; cbn [negb].
  - split; [split; [discriminate|lia]|]. intros _.
    destruct parts as [|a [|b [|c [|? ?]]]]; try discriminate.
    exists a, b, c. split; [reflexivity|].
    destruct (GoString.Split (afterLastSlash path) "___") as [|a' [|b' ?]];
      simpl in HL; try lia.
    simpl in HT. injection HT as -> ->. repeat split. by rewrite <- HJ.
  - split; [split; [lia|reflexivity]|lia].
Qed.

Lemma DatabaseTableIdTupleFromPath_parts_witness :
  exists database table id,
    DatabaseTableIdTupleFromPath "sh/shipped/shop___orders___12___3"
    = Ok {| Tuple_Database := database; Tuple_Table := table; Tuple_Id := id |}
    /\ GoString.Split (afterLastSlash "sh/shipped/shop___orders___12___3") "___" !! 0%nat = Some database
    /\ GoString.Split (afterLastSlash "sh/shipped/shop___orders___12___3") "___" !! 1%nat = Some table
    /\ afterLastSlash "sh/shipped/shop___orders___12___3"
       = database +:+ "___" +:+ table +:+ "___" +:+ id.
Proof.
  apply (DatabaseTableIdTupleFromPath_parts "sh/shipped/shop___orders___12___3").
  vm_compute. lia.
Defined.

Lemma Index_app_json (id : string) :
  GoString.Index id "___" < 0 -> GoString.Index (id +:+ ".json") "___" < 0.
Proof.
  induction id as [|c id IH]; intros H; [vm_compute; reflexivity|].
  apply Index_cons_absent in H as [Hp Hi]. specialize (IH Hi).
  rewrite str_app_cons. cbn [GoString.Index].
  assert (GoString.HasPrefix (String c (id +:+ ".json")) "___" = false) as ->.
  { destruct id as [|c2 [|c3 id]].
    - change ("" +:+ ".json") with ".json". cbn [GoString.HasPrefix].
      destruct (Ascii.eqb "_" c); reflexivity.
    - change (String c2 "" +:+ ".json") with (String c2 ".json"). cbn [GoString.HasPrefix].
      destruct (Ascii.eqb "_" c); [|reflexivity]. destruct (Ascii.eqb "_" c2); reflexivity.
    - rewrite !str_app_cons. cbn [GoString.HasPrefix] in Hp |- *.
      destruct (Ascii.eqb "_" c); [|reflexivity].
      destruct (Ascii.eqb "_" c2); [|reflexivity].
      destruct (Ascii.eqb "_" c3); [discriminate|reflexivity]. }
  destruct (Z.ltb_spec (GoString.Index (id +:+ ".json") "___") 0); lia.
Qed.

Lemma SplitN_absent (s sep : string) (n : nat) :
  (0 < n)%nat -> GoString.Index s sep < 0 -> GoString.SplitN s sep n = [s].
Proof.
  intros Hn H. destruct n; [lia|]. unfold GoString.SplitN.
  destruct (_ - 1)%nat; [reflexivity|]. cbn [GoString.genSplit_loop].
  destruct (Z.ltb_spec (GoString.Index s sep) 0); [reflexivity|lia].
Qed.

(** C1, as the claim states it, fails: the record path of id 123 ends in
    the file name [123.json], which holds no separator. *)
Lemma Table_Path_not_parsed :
  Table_Path shop_orders "123" = "shop/orders/data/123.json"
  /\ DatabaseTableIdTupleFromPath (Table_Path shop_orders "123") = Err (ADB_0034 "123.json").
Proof. split; reflexivity. Qed.

(** C1, amended: parsing a record path never gives the table's database,
    name and the id back. The parse reads the file name only, so its result
    is that of parsing [id ++ ".json"], whatever the table; and it fails with
    ADB-0034 (MalformedPath) whenever the id holds no separator. *)
Theorem Table_Path_parse (t : Table) (id : string) :
  DatabaseTableIdTupleFromPath (Table_Path t id)
  = DatabaseTableIdTupleFromPath (id +:+ ".json")
  /\ DatabaseTableIdTupleFromPath (Table_Path t id)
     <> Ok {| Tuple_Database := Table_Database t; Tuple_Table := Table_Name t; Tuple_Id := id |}
  /\ (GoString.Contains id "___" = false ->
      DatabaseTableIdTupleFromPath (Table_Path t id)
      = Err (ADB_0034 (afterLastSlash (id +:+ ".json")))).
Proof.
  assert (DatabaseTableIdTupleFromPath (Table_Path t id)
          = DatabaseTableIdTupleFromPath (id +:+ ".json")) as E
    by apply DatabaseTableIdTupleFromPath_app.
  split; [exact E|]. rewrite E. split.
  - intros H. apply DatabaseTableIdTupleFromPath_Ok in H as [H _].
    cbn [Tuple_Database Tuple_Table Tuple_Id] in H.
    pose proof (afterLastSlash_length (id +:+ ".json")) as HL.
    rewrite H, !str_length_app in HL. simpl in HL. lia.
  - intros H. unfold GoString.Contains in H. apply Z.leb_gt in H.
    unfold DatabaseTableIdTupleFromPath. rewrite SplitN_absent; [reflexivity|lia|].
    unfold afterLastSlash. destruct (_ =? _); [|apply Index_drop_absent];
      by apply Index_app_json.
Qed.

Lemma Table_Path_parse_witness :
  DatabaseTableIdTupleFromPath (Table_Path shop_orders "123")
  = Err (ADB_0034 (afterLastSlash ("123" +:+ ".json"))).
Proof. apply (Table_Path_parse shop_orders "123"). reflexivity. Defined.

(** *** Index entries *)

Lemma plain_name_split (s : string) :
  plain_name s = true ->
  has_byte "/" s = false /\ GoString.Index s "___" < 0 /\ GoString.HasSuffix s "_" = false.
Proof.
  unfold plain_name. rewrite !andb_true_iff, !negb_true_iff, Contains_byte.
  unfold GoString.Contains. intros [[H1 H2] H3]. apply Z.leb_gt in H2. auto.
Qed.

(** The file name of an index entry splits into its three components. *)
Lemma SplitN_entry_name (d n id : string) :
  plain_name d = true -> plain_name n = true ->
  GoString.SplitN (d +:+ "___" +:+ n +:+ "___" +:+ id) "___" 3 = [d; n; id].
Proof.
  intros (_ & Hd & Hd')%plain_name_split (_ & Hn & Hn')%plain_name_split.
  unfold GoString.SplitN.
  destruct (Nat.ltb_spec (String.length (d +:+ "___" +:+ n +:+ "___" +:+ id) + 1) 3) as [H|_].
  { rewrite !str_length_app in H. simpl in H. lia. }
  cbn [Nat.sub GoString.genSplit_loop].
  rewrite (Index_after_name d _ Hd Hd'), Nat2Z.id.
  destruct (Z.ltb_spec (Z.of_nat (String.length d)) 0); [lia|].
  rewrite take_app_length, drop_add, drop_app_length.
  change (GoString.drop (String.length "___") ("___" +:+ n +:+ "___" +:+ id))
    with (n +:+ "___" +:+ id).
  rewrite (Index_after_name n _ Hn Hn'), Nat2Z.id.
  destruct (Z.ltb_spec (Z.of_nat (String.length n)) 0); [lia|].
  rewrite take_app_length, drop_add, drop_app_length. reflexivity.
Qed.

Lemma DatabaseTableIdTupleFromPath_entry (dir d n id : string) :
  plain_name d = true -> plain_name n = true -> plain_id id = true ->
  DatabaseTableIdTupleFromPath (dir +:+ "/" +:+ d +:+ "___" +:+ n +:+ "___" +:+ id)
  = Ok {| Tuple_Database := d; Tuple_Table := n; Tuple_Id := id |}.
Proof.
  intros Hd Hn Hid. rewrite DatabaseTableIdTupleFromPath_app.
  unfold DatabaseTableIdTupleFromPath. rewrite afterLastSlash_none.
  - by rewrite SplitN_entry_name.
  - apply plain_name_split in Hd as (Hd & _). apply plain_name_split in Hn as (Hn & _).
    unfold plain_id in Hid. rewrite negb_true_iff, Contains_byte in Hid.
    rewrite !has_byte_app, Hd, Hn, Hid. reflexivity.
Qed.

Lemma pad_loop_length (fieldValue : string) :
  (2 <= String.length (pad_loop 2 fieldValue))%nat.
Proof. destruct fieldValue as [|a [|b s]]; simpl; lia. Qed.

Lemma pad_loop_long (fieldValue : string) :
  (2 <= String.length fieldValue)%nat -> pad_loop 2 fieldValue = fieldValue.
Proof. destruct fieldValue as [|a [|b s]]; simpl; (lia || reflexivity). Qed.

Lemma lowerByte_idem (c : ascii) : GoString.lowerByte (GoString.lowerByte c) = GoString.lowerByte c.
Proof. destruct c as [[] [] [] [] [] [] [] []]; reflexivity. Qed.

Lemma lowerByte_ascii (c : ascii) :
  GoString.isASCIIbyte (GoString.lowerByte c) = GoString.isASCIIbyte c.
Proof. destruct c as [[] [] [] [] [] [] [] []]; reflexivity. Qed.

Lemma lowerASCII_length (s : string) : String.length (GoString.lowerASCII s) = String.length s.
Proof. induction s; simpl; congruence. Qed.

Lemma lowerASCII_idem (s : string) :
  GoString.lowerASCII (GoString.lowerASCII s) = GoString.lowerASCII s.
Proof. induction s; simpl; [reflexivity|]. by rewrite lowerByte_idem, IHs. Qed.

Lemma lowerASCII_isASCII (s : string) :
  GoString.isASCII (GoString.lowerASCII s) = GoString.isASCII s.
Proof. induction s; simpl; [reflexivity|]. by rewrite lowerByte_ascii, IHs. Qed.

Lemma pad_loop_isASCII (s : string) :
  GoString.isASCII (pad_loop 2 s) = GoString.isASCII s.
Proof. destruct s as [|a [|b s]]; reflexivity. Qed.

(** Lower-casing and padding commute on ASCII values: the underscore is its
    own lower case and the length does not change. *)
Lemma lowerASCII_pad_loop (s : string) :
  GoString.lowerASCII (pad_loop 2 s) = pad_loop 2 (GoString.lowerASCII s).
Proof. destruct s as [|a [|b s]]; reflexivity. Qed.

Section AddressingFacts.

Variable unicodeLower : string -> string.

(** On an ASCII field value [PathNoId] returns, with the padded lower-case
    value under the directory of its first two bytes. *)
Lemma Index_PathNoId_ascii (i : Index) (fieldValue : string) :
  GoString.isASCII fieldValue = true ->
  Index_PathNoId unicodeLower i fieldValue
  = Done (Index_PathPrefix i +:+ "/"
            +:+ GoString.take 2 (pad_loop 2 (GoString.lowerASCII fieldValue))
            +:+ "/" +:+ pad_loop 2 (GoString.lowerASCII fieldValue)).
Proof.
  intros H. unfold Index_PathNoId, GoString.ToLower.
  rewrite pad_loop_isASCII, H, lowerASCII_pad_loop.
  pose proof (pad_loop_length (GoString.lowerASCII fieldValue)) as HL.
  destruct (Nat.ltb_spec (String.length (pad_loop 2 (GoString.lowerASCII fieldValue))) 2);
    [lia|reflexivity].
Qed.

Lemma take_2_length (s : string) :
  (2 <= String.length s)%nat ->
  String.length (GoString.take 2 s) = 2%nat
  /\ GoString.HasPrefix s (GoString.take 2 s) = true.
Proof.
  destruct s as [|a [|b s]]; simpl; try lia. intros _. by rewrite !Ascii.eqb_refl.
Qed.

(** X1: on an ASCII field value [PathNoId] returns the path
    [{PathPrefix()}/{shard}/{value}], the value being the field value in
    lower case, padded on the left with underscores to two bytes (in either
    order), and the shard its first two bytes. *)
Theorem Index_PathNoId_shard (i : Index) (fieldValue : string) :
  GoString.isASCII fieldValue = true ->
  exists shard value,
    Index_PathNoId unicodeLower i fieldValue
    = Done (Index_PathPrefix i +:+ "/" +:+ shard +:+ "/" +:+ value)
    /\ value = pad_loop 2 (GoString.lowerASCII fieldValue)
    /\ value = GoString.lowerASCII (pad_loop 2 fieldValue)
    /\ String.length shard = 2%nat
    /\ GoString.HasPrefix value shard = true.
Proof.
  intros H. pose proof (pad_loop_length (GoString.lowerASCII fieldValue)) as HL.
  destruct (take_2_length _ HL) as [H1 H2].
  exists (GoString.take 2 (pad_loop 2 (GoString.lowerASCII fieldValue))),
    (pad_loop 2 (GoString.lowerASCII fieldValue)).
  rewrite lowerASCII_pad_loop. auto using Index_PathNoId_ascii.
Qed.

(** ASCII field values that differ in case only share their directory. *)
Lemma Index_PathNoId_case (i : Index) (a b : string) :
  GoString.isASCII a = true -> GoString.isASCII b = true ->
  GoString.lowerASCII a = GoString.lowerASCII b ->
  Index_PathNoId unicodeLower i a = Index_PathNoId unicodeLower i b.
Proof. intros Ha Hb E. by rewrite !Index_PathNoId_ascii, E. Qed.

Lemma Index_PathNoId_lower (i : Index) (a : string) :
  GoString.isASCII a = true ->
  Index_PathNoId unicodeLower i (GoString.lowerASCII a) = Index_PathNoId unicodeLower i a.
Proof.
  intros Ha. apply Index_PathNoId_case; [by rewrite lowerASCII_isASCII|done|].
  apply lowerASCII_idem.
Qed.

Example Index_PathNoId_examples (i : Index) :
  Index_PathNoId unicodeLower i "AB" = Index_PathNoId unicodeLower i "ab"
  /\ Index_PathNoId unicodeLower i "a" = Index_PathNoId unicodeLower i "_a"
  /\ Index_PathNoId unicodeLower i "a" = Done (Index_PathPrefix i +:+ "/_a/_a")
  /\ Index_PathNoId unicodeLower i "" = Done (Index_PathPrefix i +:+ "/__/__").
Proof. repeat split; reflexivity. Qed.

(** C6: on the Kelvin sign the code pads nothing (three bytes), lower-cases
    to the single byte k and panics on the slice [fieldValue[:2]], where
    lower-casing first and padding second, as the claim has it, gives the
    two bytes [_k]. *)
Theorem Index_PathNoId_panics (i : Index) :
  unicodeLower kelvin_sign = "k" ->
  Index_PathNoId unicodeLower i kelvin_sign = Panicked "slice bounds out of range [:2]"
  /\ pad_loop 2 (GoString.ToLower unicodeLower kelvin_sign) = "_k".
Proof.
  intros H. unfold Index_PathNoId, GoString.ToLower.
  change (pad_loop 2 kelvin_sign) with kelvin_sign.
  change (GoString.isASCII kelvin_sign) with false. cbn iota. rewrite H. split; reflexivity.
Qed.

(** C5, amended: for an index on a table whose database and name are plain
    names (no slash, no separator, no underscore at the end), an id without
    a slash and a field value on which [PathNoId] returns a path, [Path]
    returns a path too and parsing it gives database, name and id back,
    whatever the field value. *)
Theorem Index_Path_round_trip (i : Index) (fieldValue id dir : string) :
  plain_name (Table_Database (Index_Table i)) = true ->
  plain_name (Table_Name (Index_Table i)) = true ->
  plain_id id = true ->
  Index_PathNoId unicodeLower i fieldValue = Done dir ->
  exists path,
    Index_Path unicodeLower i fieldValue id = Done path
    /\ DatabaseTableIdTupleFromPath path
       = Ok {| Tuple_Database := Table_Database (Index_Table i);
               Tuple_Table := Table_Name (Index_Table i);
               Tuple_Id := id |}.
Proof.
  intros Hd Hn Hid Hdir. unfold Index_Path. rewrite Hdir.
  eexists. split; [reflexivity|]. by apply DatabaseTableIdTupleFromPath_entry.
Qed.

(** X2: so it is for every ASCII field value. *)
Theorem Index_Path_round_trip_ascii (i : Index) (fieldValue id : string) :
  plain_name (Table_Database (Index_Table i)) = true ->
  plain_name (Table_Name (Index_Table i)) = true ->
  plain_id id = true ->
  GoString.isASCII fieldValue = true ->
  exists path,
    Index_Path unicodeLower i fieldValue id = Done path
    /\ DatabaseTableIdTupleFromPath path
       = Ok {| Tuple_Database := Table_Database (Index_Table i);
               Tuple_Table := Table_Name (Index_Table i);
               Tuple_Id := id |}.
Proof.
  intros Hd Hn Hid Ha. unfold Index_Path. rewrite (Index_PathNoId_ascii i fieldValue Ha).
  eexists. split; [reflexivity|]. by apply DatabaseTableIdTupleFromPath_entry.
Qed.

(** The entry path of an id with a slash, whatever the Unicode tables. *)
Lemma Index_Path_slash_any :
  Index_Path unicodeLower status_index "SHIPPED" "a/b"
  = Done "shop/orders/indices/status/sh/shipped/shop___orders___a/b".
Proof. reflexivity. Qed.

End AddressingFacts.

Lemma Index_PathNoId_shard_witness :
  exists shard value,
    Index_PathNoId ascii_only status_index "SHIPPED"
    = Done (Index_PathPrefix status_index +:+ "/" +:+ shard +:+ "/" +:+ value)
    /\ value = pad_loop 2 (GoString.lowerASCII "SHIPPED")
    /\ value = GoString.lowerASCII (pad_loop 2 "SHIPPED")
    /\ String.length shard = 2%nat
    /\ GoString.HasPrefix value shard = true.
Proof. apply (Index_PathNoId_shard ascii_only status_index "SHIPPED"). reflexivity. Defined.

Lemma Index_Path_round_trip_ascii_witness :
  exists path,
    Index_Path ascii_only status_index "Out for Delivery" "order-42" = Done path
    /\ DatabaseTableIdTupleFromPath path
       = Ok {| Tuple_Database := "shop"; Tuple_Table := "orders"; Tuple_Id := "order-42" |}.
Proof.
  apply (Index_Path_round_trip_ascii ascii_only status_index "Out for Delivery" "order-42");
    reflexivity.
Defined.

Lemma Index_PathNoId_panics_witness :
  Index_PathNoId kelvin_lower status_index kelvin_sign = Panicked "slice bounds out of range [:2]"
  /\ pad_loop 2 (GoString.ToLower kelvin_lower kelvin_sign) = "_k".
Proof. apply (Index_PathNoId_panics kelvin_lower status_index). reflexivity. Defined.

(** C5, as the claim states it, fails: a slash in the id ends the file name
    early, and the parse sees only what follows it. *)
Lemma Index_Path_slash_in_id :
  Index_Path ascii_only status_index "SHIPPED" "a/b"
  = Done "shop/orders/indices/status/sh/shipped/shop___orders___a/b"
  /\ DatabaseTableIdTupleFromPath "shop/orders/indices/status/sh/shipped/shop___orders___a/b"
     = Err (ADB_0034 "b").
Proof. split; reflexivity. Qed.

Lemma Index_Path_round_trip_witness :
  exists path,
    Index_Path ascii_only status_index "SHIPPED" "123" = Done path
    /\ DatabaseTableIdTupleFromPath path
       = Ok {| Tuple_Database := "shop"; Tuple_Table := "orders"; Tuple_Id := "123" |}.
Proof.
  apply (Index_Path_round_trip ascii_only status_index "SHIPPED" "123"
           "shop/orders/indices/status/sh/shipped"); reflexivity.
Defined.

(** *** The transaction gate *)

Section TransactionFacts.

Context {any : Type}.
Context (json_Marshal : any -> result string).

Implicit Types (t : Transaction any) (w : World any).

(** [IsOk] reads the clock at most once and touches nothing else. *)
Lemma IsOk_world t w :
  snd (IsOk t w) = w \/ snd (IsOk t w) = snd (time_Now w).
Proof.
  unfold IsOk, IsExpired.
  repeat (destruct (String.eqb _ _); simpl; auto).
  destruct (_ >? _); auto.
Qed.

Lemma IsOk_steps_store t w : steps_store (snd (IsOk t w)) = steps_store w.
Proof. destruct (IsOk_world t w) as [-> | ->]; reflexivity. Qed.

Lemma IsOk_InProgress t w :
  State t = "InProgress" ->
  IsOk t w = (if fst (IsExpired t w) then Done (Some TransactionTimedOutError) else Done None,
              snd (time_Now w)).
Proof.
  intros E. unfold IsOk, IsExpired. rewrite E. simpl. by destruct (_ >? _).
Qed.

Lemma IsOk_deadline t w :
  State t = "InProgress" ->
  fst (IsOk t w)
  = if UnixMicro (clock w (ticks w)) >? TimeoutMicroseconds t
    then Done (Some TransactionTimedOutError) else Done None.
Proof.
  intros E. rewrite (IsOk_InProgress t w E). unfold IsExpired. cbn [time_Now fst]. reflexivity.
Qed.

Lemma UnixMicro_mono (a b : Time) : a <= b -> UnixMicro a <= UnixMicro b.
Proof. intros H. unfold UnixMicro. apply Z.div_le_mono; lia. Qed.

Lemma UnixMicro_next (a : Time) : UnixMicro (a + 1000) = UnixMicro a + 1.
Proof.
  unfold UnixMicro. replace (a + 1000) with (a + 1 * 1000) by lia.
  rewrite Z.div_add by lia. reflexivity.
Qed.

(** C2: [IsOk] returns nil exactly for an InProgress transaction that has
    not expired; AlreadyCommitted exactly in state Committing;
    AlreadyRolledBack exactly in state RollingBack; TimedOut exactly for an
    InProgress transaction past its deadline; and it panics exactly when the
    state is none of the three. A transaction made by [NewTransaction] is
    InProgress, passes the gate as long as the clock has not passed its start
    plus the timeout (in particular at the instant of its creation, for a
    positive timeout), and gets TimedOut once the clock is a microsecond or
    more beyond it. *)
Theorem IsOk_gate :
  (forall t w,
      (fst (IsOk t w) = Done None <-> State t = "InProgress" /\ fst (IsExpired t w) = false)
      /\ (fst (IsOk t w) = Done (Some TransactionAlreadyCommittedError)
          <-> State t = "Committing")
      /\ (fst (IsOk t w) = Done (Some TransactionAlreadyRolledBackError)
          <-> State t = "RollingBack")
      /\ (fst (IsOk t w) = Done (Some TransactionTimedOutError)
          <-> State t = "InProgress" /\ fst (IsExpired t w) = true)
      /\ ((exists msg, fst (IsOk t w) = Panicked msg)
          <-> State t <> "InProgress" /\ State t <> "Committing" /\ State t <> "RollingBack"))
  /\ (forall (timeout : Duration) w w',
         State (fst (NewTransaction timeout w)) = "InProgress"
         /\ (0 < timeout -> clock w' (ticks w') = clock w (ticks w) ->
             fst (IsOk (fst (NewTransaction timeout w)) w') = Done None)
         /\ (clock w' (ticks w') <= clock w (ticks w) + timeout ->
             fst (IsOk (fst (NewTransaction timeout w)) w') = Done None)
         /\ (clock w (ticks w) + timeout + 1000 <= clock w' (ticks w') ->
             fst (IsOk (fst (NewTransaction timeout w)) w')
             = Done (Some TransactionTimedOutError))).
Proof.
  split.
  - intros t w. unfold IsOk, IsExpired. cbn [time_Now].
    destruct (String.eqb_spec (State t) "Committing") as [E1|E1];
      [|destruct (String.eqb_spec (State t) "RollingBack") as [E2|E2];
        [|destruct (String.eqb_spec (State t) "InProgress") as [E3|E3]]];
      cbn [negb fst]; try destruct (_ >? _); cbn [fst];
      try rewrite E1; try rewrite E2; try rewrite E3;
      repeat split; try discriminate; try congruence; eauto;
      try match goal with H : ex _ |- _ => destruct H; discriminate end;
      try (intros; repeat match goal with H : _ /\ _ |- _ => destruct H end;
           first [discriminate | congruence]).
  - intros timeout w w'.
    assert (State (fst (NewTransaction timeout w)) = "InProgress") as HS by reflexivity.
    pose proof (IsOk_deadline _ w' HS) as HD.
    change (TimeoutMicroseconds (fst (NewTransaction timeout w)))
      with (UnixMicro (clock w (ticks w) + timeout)) in HD.
    assert (clock w' (ticks w') <= clock w (ticks w) + timeout ->
            fst (IsOk (fst (NewTransaction timeout w)) w') = Done None) as Hin.
    { intros H. rewrite HD. apply UnixMicro_mono in H.
      destruct (Z.gtb_spec (UnixMicro (clock w' (ticks w')))
                  (UnixMicro (clock w (ticks w) + timeout))); [lia|reflexivity]. }
    split; [exact HS|]. split; [intros ? ?; apply Hin; lia|]. split; [exact Hin|].
    intros H. rewrite HD. apply UnixMicro_mono in H. rewrite UnixMicro_next in H.
    destruct (Z.gtb_spec (UnixMicro (clock w' (ticks w')))
                (UnixMicro (clock w (ticks w) + timeout))); [reflexivity|lia].
Qed.

(** C10: the state is looked at before the clock. A transaction past its
    deadline in state Committing gets AlreadyCommitted and one in state
    RollingBack gets AlreadyRolledBack, neither reading the clock; TimedOut is
    returned to InProgress transactions only. *)
Theorem IsOk_terminal_before_expiry t w :
  fst (IsExpired t w) = true ->
  (State t = "Committing" -> IsOk t w = (Done (Some TransactionAlreadyCommittedError), w))
  /\ (State t = "RollingBack" -> IsOk t w = (Done (Some TransactionAlreadyRolledBackError), w))
  /\ (fst (IsOk t w) = Done (Some TransactionTimedOutError) <-> State t = "InProgress").
Proof.
  intros Hexp. repeat split.
  - unfold IsOk. by intros ->.
  - unfold IsOk. by intros ->.
  - unfold IsOk.
    destruct (String.eqb_spec (State t) "Committing"); [discriminate|].
    destruct (String.eqb_spec (State t) "RollingBack"); [discriminate|].
    destruct (String.eqb_spec (State t) "InProgress"); [done|discriminate].
  - intros E. rewrite (IsOk_InProgress t w E), Hexp. reflexivity.
Qed.

(** *** The step log *)

Lemma AddStep_IsOk_error (Type_ ContentType Path InitialETag : string) (Entity : option any)
    t w (err : error) w1 :
  IsOk t w = (Done (Some err), w1) ->
  AddStep json_Marshal Type_ ContentType Path InitialETag Entity t w = (Done (Some err), t, w1).
Proof. intros H. unfold AddStep. by rewrite H. Qed.

Lemma AddStep_IsOk_panic (Type_ ContentType Path InitialETag : string) (Entity : option any)
    t w (msg : string) w1 :
  IsOk t w = (Panicked msg, w1) ->
  AddStep json_Marshal Type_ ContentType Path InitialETag Entity t w = (Panicked msg, t, w1).
Proof. intros H. unfold AddStep. by rewrite H. Qed.

Lemma AddStep_Marshal_error (Type_ ContentType Path InitialETag : string) (Entity : option any)
    t w w1 (err : error) :
  IsOk t w = (Done None, w1) -> encode_entity json_Marshal Entity = Err err ->
  AddStep json_Marshal Type_ ContentType Path InitialETag Entity t w
  = (Done (Some err), t, snd (time_Now w1)).
Proof. intros H E. unfold AddStep. rewrite H. cbn [time_Now snd]. by rewrite E. Qed.

(** What a successful call does, in full. *)
Lemma AddStep_success (Type_ ContentType Path InitialETag : string) (Entity : option any)
    t w w1 (data : string) :
  IsOk t w = (Done None, w1) -> encode_entity json_Marshal Entity = Ok data ->
  AddStep json_Marshal Type_ ContentType Path InitialETag Entity t w
  = (Done None,
     {| Id := Id t; Etag := Etag t; StartMicroseconds := StartMicroseconds t;
        TimeoutMicroseconds := TimeoutMicroseconds t;
        Steps := Steps t ++ [length (steps_store w)];
        Cache := Cache t; State := State t |},
     snd (new_step (make_step t (clock w1 (ticks w1)) Type_ ContentType Path InitialETag
                      data Entity) (snd (time_Now w1)))).
Proof.
  intros H E. unfold AddStep. rewrite H. cbn [time_Now snd fst new_step steps_store].
  rewrite E. pose proof (IsOk_steps_store t w) as Hs. rewrite H in Hs. simpl in Hs.
  by rewrite Hs.
Qed.

(** The outcomes of [AddStep], by those of the gate and of the encoder. *)
Lemma AddStep_cases (Type_ ContentType Path InitialETag : string) (Entity : option any) t w :
  (exists msg, IsOk t w = (Panicked msg, snd (IsOk t w)))
  \/ (exists err, IsOk t w = (Done (Some err), snd (IsOk t w)))
  \/ (IsOk t w = (Done None, snd (IsOk t w))
      /\ ((exists err, encode_entity json_Marshal Entity = Err err)
          \/ (exists data, encode_entity json_Marshal Entity = Ok data))).
Proof.
  destruct (IsOk t w) as [[[err|]|msg] w1]; simpl; eauto.
  right; right. split; [done|]. destruct (encode_entity json_Marshal Entity); eauto.
Qed.

(** A call that returns nil passed the gate and encoded its entity. *)
Lemma AddStep_nil_inv (Type_ ContentType Path InitialETag : string) (Entity : option any)
    t w t' w' :
  AddStep json_Marshal Type_ ContentType Path InitialETag Entity t w = (Done None, t', w') ->
  exists w1 data,
    IsOk t w = (Done None, w1) /\ encode_entity json_Marshal Entity = Ok data.
Proof.
  intros H.
  destruct (AddStep_cases Type_ ContentType Path InitialETag Entity t w)
    as [[msg E]|[[err E]|[E [[err M]|[data M]]]]].
  - rewrite (AddStep_IsOk_panic _ _ _ _ _ _ _ _ _ E) in H. discriminate.
  - rewrite (AddStep_IsOk_error _ _ _ _ _ _ _ _ _ E) in H. discriminate.
  - rewrite (AddStep_Marshal_error _ _ _ _ _ _ _ _ _ E M) in H. discriminate.
  - eauto.
Qed.

(** C3: a call that the gate refuses returns the gate's error and leaves
    the transaction and the step objects as they were; so does a call whose
    entity the encoder refuses; and whatever error a call returns, the
    transaction and the step objects are unchanged. *)
Theorem AddStep_atomic_on_error (Type_ ContentType Path InitialETag : string)
    (Entity : option any) t w :
  (forall err w1, IsOk t w = (Done (Some err), w1) ->
     AddStep json_Marshal Type_ ContentType Path InitialETag Entity t w
     = (Done (Some err), t, w1)
     /\ steps_store w1 = steps_store w)
  /\ (forall w1 e err, IsOk t w = (Done None, w1) -> Entity = Some e ->
       json_Marshal e = Err err ->
       exists w2,
         AddStep json_Marshal Type_ ContentType Path InitialETag Entity t w
         = (Done (Some err), t, w2)
         /\ steps_store w2 = steps_store w)
  /\ (forall err t' w',
       AddStep json_Marshal Type_ ContentType Path InitialETag Entity t w
       = (Done (Some err), t', w') ->
       t' = t /\ steps_store w' = steps_store w).
Proof.
  pose proof (IsOk_steps_store t w) as Hs.
  split; [|split].
  - intros err w1 H. rewrite H in Hs. split; [by apply AddStep_IsOk_error|exact Hs].
  - intros w1 e err H -> M. rewrite H in Hs. eexists. split.
    + by apply AddStep_Marshal_error.
    + exact Hs.
  - intros err t' w' H.
    destruct (AddStep_cases Type_ ContentType Path InitialETag Entity t w)
      as [[msg E]|[[err' E]|[E [[err' M]|[data M]]]]].
    + rewrite (AddStep_IsOk_panic _ _ _ _ _ _ _ _ _ E) in H. discriminate.
    + rewrite (AddStep_IsOk_error _ _ _ _ _ _ _ _ _ E) in H. by injection H as _ <- <-.
    + rewrite (AddStep_Marshal_error _ _ _ _ _ _ _ _ _ E M) in H. by injection H as _ <- <-.
    + rewrite (AddStep_success _ _ _ _ _ _ _ _ _ E M) in H. discriminate.
Qed.

(** C9: a call that returns nil changes the [Steps] field only, which gets
    one more element at its end. *)
Theorem AddStep_frame (Type_ ContentType Path InitialETag : string) (Entity : option any)
    t w t' w' :
  AddStep json_Marshal Type_ ContentType Path InitialETag Entity t w = (Done None, t', w') ->
  Id t' = Id t /\ Etag t' = Etag t
  /\ StartMicroseconds t' = StartMicroseconds t
  /\ TimeoutMicroseconds t' = TimeoutMicroseconds t
  /\ State t' = State t /\ Cache t' = Cache t
  /\ (exists p, Steps t' = Steps t ++ [p])
  /\ length (Steps t') = S (length (Steps t)).
Proof.
  intros H. destruct (AddStep_nil_inv _ _ _ _ _ _ _ _ _ H) as (w1 & data & E & M).
  rewrite (AddStep_success _ _ _ _ _ _ _ _ _ E M) in H. injection H as <- <-.
  cbn [Id Etag StartMicroseconds TimeoutMicroseconds State Cache Steps].
  repeat split; eauto. rewrite length_app. simpl. lia.
Qed.

(** The step object a successful call makes, and where it puts it. *)
Lemma AddStep_call_nil (c : StepCall any) t w t' w' :
  AddStep_call json_Marshal c t w = (Done None, t', w') ->
  exists s,
    Steps t' = Steps t ++ [length (steps_store w)]
    /\ steps_store w' = steps_store w ++ [s]
    /\ Step_Type s = call_Type c /\ Step_ContentType s = call_ContentType c
    /\ Step_Path s = call_Path c /\ Step_InitialETag s = call_InitialETag c
    /\ Step_Entity s = call_Entity c /\ Step_Executed s = false
    /\ Step_UserMetadata s !! TX_ID = Some (Id t).
Proof.
  unfold AddStep_call. intros H.
  destruct (AddStep_nil_inv _ _ _ _ _ _ _ _ _ H) as (w1 & data & E & M).
  rewrite (AddStep_success _ _ _ _ _ _ _ _ _ E M) in H. injection H as <- <-.
  eexists. cbn [Steps new_step snd steps_store time_Now].
  pose proof (IsOk_steps_store t w) as Hs. rewrite E in Hs. simpl in Hs. rewrite Hs.
  repeat split.
Qed.

(** No call, whatever it returns, takes a pointer out of the log or changes
    a step object. *)
Lemma AddStep_call_mono (c : StepCall any) t w r t' w' :
  AddStep_call json_Marshal c t w = (r, t', w') ->
  Steps t `prefix_of` Steps t' /\ steps_store w `prefix_of` steps_store w'.
Proof.
  unfold AddStep_call. intros H.
  pose proof (IsOk_steps_store t w) as Hs.
  destruct (AddStep_cases (call_Type c) (call_ContentType c) (call_Path c)
              (call_InitialETag c) (call_Entity c) t w)
    as [[msg E]|[[err' E]|[E [[err' M]|[data M]]]]].
  - rewrite (AddStep_IsOk_panic _ _ _ _ _ _ _ _ _ E) in H. injection H as _ <- <-.
    by rewrite Hs.
  - rewrite (AddStep_IsOk_error _ _ _ _ _ _ _ _ _ E) in H. injection H as _ <- <-.
    by rewrite Hs.
  - rewrite (AddStep_Marshal_error _ _ _ _ _ _ _ _ _ E M) in H. injection H as _ <- <-.
    cbn [time_Now snd steps_store]. by rewrite Hs.
  - rewrite (AddStep_success _ _ _ _ _ _ _ _ _ E M) in H. injection H as _ <- <-.
    cbn [Steps new_step time_Now snd steps_store]. rewrite Hs.
    split; by apply prefix_app_r.
Qed.

Lemma AddSteps_mono (calls : list (StepCall any)) t w rs t' w' :
  AddSteps json_Marshal calls t w = (rs, t', w') ->
  Steps t `prefix_of` Steps t' /\ steps_store w `prefix_of` steps_store w'.
Proof.
  revert t w rs t' w'. induction calls as [|c calls IH]; intros t w rs t' w' H.
  - injection H as _ <- <-. done.
  - cbn [AddSteps] in H.
    destruct (AddStep_call json_Marshal c t w) as [[r t1] w1] eqn:E1.
    destruct (AddSteps json_Marshal calls t1 w1) as [[rs2 t2] w2] eqn:E2.
    injection H as _ <- <-.
    apply AddStep_call_mono in E1 as [? ?]. apply IH in E2 as [? ?].
    split; by etrans.
Qed.

Lemma AddSteps_app (pre post : list (StepCall any)) t w :
  AddSteps json_Marshal (pre ++ post) t w
  = let '(rs1, t1, w1) := AddSteps json_Marshal pre t w in
    let '(rs2, t2, w2) := AddSteps json_Marshal post t1 w1 in
    (rs1 ++ rs2, t2, w2).
Proof.
  revert t w. induction pre as [|c pre IH]; intros t w.
  - cbn [app AddSteps]. by destruct (AddSteps json_Marshal post t w) as [[? ?] ?].
  - cbn [app AddSteps]. destruct (AddStep_call json_Marshal c t w) as [[r t1] w1].
    rewrite IH. destruct (AddSteps json_Marshal pre t1 w1) as [[rs1 t2] w2].
    by destruct (AddSteps json_Marshal post t2 w2) as [[rs2 t3] w3].
Qed.

(** Calls that all return nil lengthen the log by one pointer each. *)
Lemma AddSteps_length (calls : list (StepCall any)) t w rs t' w' :
  AddSteps json_Marshal calls t w = (rs, t', w') ->
  Forall (fun r => r = Done None) rs ->
  length rs = length calls
  /\ length (Steps t') = (length (Steps t) + length calls)%nat.
Proof.
  revert t w rs t' w'. induction calls as [|c calls IH]; intros t w rs t' w' H Hrs.
  - injection H as <- <- <-. simpl. lia.
  - cbn [AddSteps] in H.
    destruct (AddStep_call json_Marshal c t w) as [[r t1] w1] eqn:E1.
    destruct (AddSteps json_Marshal calls t1 w1) as [[rs2 t2] w2] eqn:E2.
    injection H as <- <- <-. apply Forall_cons in Hrs as [-> Hrs].
    destruct (IH _ _ _ _ _ E2 Hrs) as [IH1 IH2].
    apply AddStep_call_nil in E1 as (s & HS & _). rewrite HS, length_app in IH2.
    simpl in *. lia.
Qed.

(** C7: in a run of calls that all return nil, the call in position
    [length pre + 1] makes one new step object [s] from its arguments and
    appends its pointer [p]; when the run is over, that pointer stands at
    index [length pre] of [Steps] (counted from the length the log had when
    the run began, which is 0 for a new transaction), the object is the same,
    and every pointer and every object that was there after the call is
    still there, at the same place and unchanged. *)
Theorem AddSteps_order (pre post : list (StepCall any)) (c : StepCall any) t w rs t' w' :
  AddSteps json_Marshal (pre ++ c :: post) t w = (rs, t', w') ->
  Forall (fun r => r = Done None) rs ->
  exists rs1 t1 w1 t2 w2 p s,
    AddSteps json_Marshal pre t w = (rs1, t1, w1)
    /\ AddStep_call json_Marshal c t1 w1 = (Done None, t2, w2)
    /\ Steps t2 = Steps t1 ++ [p]
    /\ steps_store w1 !! p = None /\ steps_store w2 !! p = Some s
    /\ Step_Type s = call_Type c /\ Step_ContentType s = call_ContentType c
    /\ Step_Path s = call_Path c /\ Step_InitialETag s = call_InitialETag c
    /\ Step_Entity s = call_Entity c /\ Step_Executed s = false
    /\ Steps t' !! (length (Steps t) + length pre)%nat = Some p
    /\ (Steps t = [] -> Steps t' !! length pre = Some p)
    /\ steps_store w' !! p = Some s
    /\ (forall j q, Steps t2 !! j = Some q -> Steps t' !! j = Some q)
    /\ (forall q s0, steps_store w2 !! q = Some s0 -> steps_store w' !! q = Some s0).
Proof.
  intros H Hrs. rewrite AddSteps_app in H.
  destruct (AddSteps json_Marshal pre t w) as [[rs1 t1] w1] eqn:E1.
  cbn [AddSteps] in H.
  destruct (AddStep_call json_Marshal c t1 w1) as [[r t2] w2] eqn:E2.
  destruct (AddSteps json_Marshal post t2 w2) as [[rs3 t3] w3] eqn:E3.
  injection H as <- <- <-.
  apply Forall_app in Hrs as [Hrs1 Hrs]. apply Forall_cons in Hrs as [-> Hrs3].
  destruct (AddSteps_length _ _ _ _ _ _ E1 Hrs1) as [_ HL].
  destruct (AddStep_call_nil _ _ _ _ _ E2) as (s & HS & HW & F1 & F2 & F3 & F4 & F5 & F6 & _).
  destruct (AddSteps_mono _ _ _ _ _ _ E3) as [Hp Hq].
  assert (steps_store w2 !! length (steps_store w1) = Some s) as Hs
    by (rewrite HW; by apply list_lookup_middle).
  assert (Steps t3 !! (length (Steps t) + length pre)%nat = Some (length (steps_store w1)))
    as Hi.
  { eapply prefix_lookup_Some; [|exact Hp]. rewrite HS. apply list_lookup_middle.
    symmetry. exact HL. }
  exists rs1, t1, w1, t2, w2, (length (steps_store w1)), s.
  repeat split; try assumption.
  - by apply lookup_ge_None.
  - intros E. by rewrite E in Hi.
  - by eapply prefix_lookup_Some.
  - intros j q Hj. by eapply prefix_lookup_Some.
  - intros q s0 Hj. by eapply prefix_lookup_Some.
Qed.

End TransactionFacts.

(** *** The properties at sample inputs *)

Lemma IsOk_gate_witness :
  fst (IsOk (fst (NewTransaction 5000000 (sample_world 1700000000000000000)))
         (snd (NewTransaction 5000000 (sample_world 1700000000000000000)))) = Done None
  /\ fst (IsOk (fst (NewTransaction 5000000 (sample_world 1700000000000000000)))
           (sample_world 1700000000000000000)) = Done None
  /\ fst (IsOk (fst (NewTransaction 5000000 (sample_world 1700000000000000000)))
           (sample_world 1700000000005001000)) = Done (Some TransactionTimedOutError).
Proof.
  pose proof (proj2 (@IsOk_gate sample_entity) 5000000 (sample_world 1700000000000000000)) as H.
  split; [|split].
  - apply (proj1 (proj2 (proj2 (H (snd (NewTransaction 5000000
                                           (sample_world 1700000000000000000))))))).
    vm_compute. discriminate.
  - apply (proj1 (proj2 (H (sample_world 1700000000000000000)))); reflexivity.
  - apply (proj2 (proj2 (proj2 (H (sample_world 1700000000005001000))))).
    vm_compute. discriminate.
Defined.

Lemma IsOk_terminal_before_expiry_witness :
  IsOk (sample_tx "Committing") (sample_world 1800000000000000000)
  = (Done (Some TransactionAlreadyCommittedError), sample_world 1800000000000000000)
  /\ IsOk (sample_tx "RollingBack") (sample_world 1800000000000000000)
     = (Done (Some TransactionAlreadyRolledBackError), sample_world 1800000000000000000).
Proof.
  split.
  - apply (IsOk_terminal_before_expiry (sample_tx "Committing")
             (sample_world 1800000000000000000)); reflexivity.
  - apply (IsOk_terminal_before_expiry (sample_tx "RollingBack")
             (sample_world 1800000000000000000)); reflexivity.
Defined.

Lemma AddStep_atomic_on_error_witness :
  (AddStep sample_Marshal "create" "application/json" "shop/orders/data/1.json" ""
     (Some (IntValue 1)) (sample_tx "RollingBack") (sample_world 1700000000000000000)
   = (Done (Some TransactionAlreadyRolledBackError), sample_tx "RollingBack",
      sample_world 1700000000000000000)
   /\ steps_store (sample_world 1700000000000000000)
      = steps_store (sample_world 1700000000000000000))
  /\ exists w2,
       AddStep sample_Marshal "create" "application/json" "shop/orders/data/1.json" ""
         (Some ChanValue) (sample_tx "InProgress") (sample_world 1700000000000000000)
       = (Done (Some (MarshalError "json: unsupported type: chan int")),
          sample_tx "InProgress", w2)
       /\ steps_store w2 = steps_store (sample_world 1700000000000000000).
Proof.
  split.
  - apply (AddStep_atomic_on_error sample_Marshal). reflexivity.
  - eapply (proj1 (proj2 (AddStep_atomic_on_error sample_Marshal "create" "application/json"
                            "shop/orders/data/1.json" "" (Some ChanValue)
                            (sample_tx "InProgress") (sample_world 1700000000000000000))));
      reflexivity.
Defined.

Lemma AddStep_frame_witness :
  let t := sample_tx "InProgress" in
  let r := AddStep sample_Marshal "update" "application/json" "shop/orders/data/1.json"
             "etag-1" (Some (IntValue 1)) t (sample_world 1700000000000000000) in
  Id r.1.2 = Id t /\ Etag r.1.2 = Etag t
  /\ StartMicroseconds r.1.2 = StartMicroseconds t
  /\ TimeoutMicroseconds r.1.2 = TimeoutMicroseconds t
  /\ State r.1.2 = State t /\ Cache r.1.2 = Cache t
  /\ (exists p, Steps r.1.2 = Steps t ++ [p])
  /\ length (Steps r.1.2) = S (length (Steps t)).
Proof.
  intros t r.
  apply (AddStep_frame sample_Marshal "update" "application/json" "shop/orders/data/1.json"
           "etag-1" (Some (IntValue 1)) t (sample_world 1700000000000000000) r.1.2 r.2).
  reflexivity.
Defined.

Lemma AddSteps_order_witness :
  let start := NewTransaction 5000000 (sample_world 1700000000000000000) in
  let calls := [sample_call "shop/orders/data/1.json" (Some (IntValue 1));
                sample_call "shop/orders/data/2.json" None;
                sample_call "shop/orders/data/3.json" (Some (IntValue 3))] in
  let run := AddSteps sample_Marshal calls start.1 start.2 in
  exists p s,
    Steps run.1.2 !! 1%nat = Some p /\ steps_store run.2 !! p = Some s
    /\ Step_Path s = "shop/orders/data/2.json".
Proof.
  intros start calls run.
  destruct (AddSteps_order sample_Marshal
              [sample_call "shop/orders/data/1.json" (Some (IntValue 1))]
              [sample_call "shop/orders/data/3.json" (Some (IntValue 3))]
              (sample_call "shop/orders/data/2.json" None)
              start.1 start.2 run.1.1 run.1.2 run.2)
    as (rs1 & t1 & w1 & t2 & w2 & p & s & _ & _ & _ & _ & _ & _ & _ & HP & _ & _ & _ & _
        & Hi & Hs & _).
  - reflexivity.
  - vm_compute. repeat constructor.
  - exists p, s. repeat split; [exact (Hi eq_refl)|exact Hs|exact HP].
Defined.

(** *** Reading a transaction path back *)

Example GetIdAndTimeoutMicrosFromPath_ex :
  GetIdAndTimeoutMicrosFromPath "transactions/1700000000000000___tx-0"
  = inl ("tx-0", 1700000000000000)
  /\ GetIdAndTimeoutMicrosFromPath "transactions//1700000000000000___tx-0/"
     = inl ("tx-0", 1700000000000000)
  /\ GetIdAndTimeoutMicrosFromPath "transactions"
     = inr slice_bounds_out_of_range
  /\ GetIdAndTimeoutMicrosFromPath "transactions/17___a___b"
     = inr (ADB_0015 "transactions/17___a___b")
  /\ GetIdAndTimeoutMicrosFromPath "transactions/-17___a"
     = inr (ADB_0016 "transactions/-17___a" GoLib.ErrSyntax)
  /\ GetIdAndTimeoutMicrosFromPath "transactions/18446744073709551616___a"
     = inr (ADB_0016 "transactions/18446744073709551616___a" GoLib.ErrRange)
  /\ GoLib.ParseUint "18446744073709551615" = (18446744073709551615, None).
Proof. repeat split; reflexivity. Qed.

(** *** More on paths and their parts *)

Lemma str_app_inj_r (a b c : string) : a +:+ c = b +:+ c -> a = b.
Proof.
  revert b. induction a as [|x a IH]; intros [|y b] H; try reflexivity.
  - apply (f_equal String.length) in H. rewrite !str_length_app in H. simpl in H. lia.
  - apply (f_equal String.length) in H. rewrite !str_length_app in H. simpl in H. lia.
  - rewrite !str_app_cons in H. injection H as -> H. f_equal. by apply IH.
Qed.

Lemma str_app_inj_length (a a' b b' : string) :
  String.length a = String.length a' -> a +:+ b = a' +:+ b' -> a = a' /\ b = b'.
Proof.
  revert a'. induction a as [|x a IH]; intros [|y a'] HL H; try discriminate.
  - by split.
  - rewrite !str_app_cons in H. injection H as -> H. injection HL as HL.
    destruct (IH a' HL H) as [-> ->]. by split.
Qed.

(** Two strings cut at their first slash agree part by part. *)
Lemma str_app_slash_inj (a b x y : string) :
  has_byte "/" a = false -> has_byte "/" b = false ->
  a +:+ "/" +:+ x = b +:+ "/" +:+ y -> a = b /\ x = y.
Proof.
  revert b. induction a as [|c a IH]; intros [|c' b] Ha Hb H.
  - change (String "/" x = String "/" y) in H. injection H as ->. by split.
  - change (String "/" x = String c' (b +:+ "/" +:+ y)) in H. injection H as <- _.
    discriminate Hb.
  - change (String c (a +:+ "/" +:+ x) = String "/" y) in H. injection H as -> _.
    discriminate Ha.
  - rewrite !str_app_cons in H. injection H as -> H.
    cbn [has_byte] in Ha, Hb. apply orb_false_iff in Ha as [_ Ha].
    apply orb_false_iff in Hb as [_ Hb].
    destruct (IH b Ha Hb H) as [-> ->]. by split.
Qed.

Lemma HasSuffix_app (a b : string) (x : ascii) :
  b <> "" -> GoString.HasSuffix (a +:+ b) (String x "") = GoString.HasSuffix b (String x "").
Proof.
  intros Hb. induction a as [|c a IH]; [reflexivity|].
  rewrite str_app_cons. destruct (a +:+ b) as [|c' r] eqn:E.
  - destruct a; [|discriminate E]. rewrite str_app_nil_l in E. done.
  - by rewrite HasSuffix_cons.
Qed.

Lemma afterLastSlash_no_slash (path : string) : has_byte "/" (afterLastSlash path) = false.
Proof.
  induction path as [|c path IH]; [reflexivity|].
  destruct (has_byte "/" path) eqn:H.
  - by rewrite afterLastSlash_cons.
  - destruct (Ascii.eqb_spec "/" c) as [<-|Hc].
    + change (String "/" path) with ("/" +:+ path).
      by rewrite afterLastSlash_slash, afterLastSlash_none.
    + rewrite afterLastSlash_none; cbn [has_byte]; rewrite H;
        by destruct (Ascii.eqb_spec "/" c).
Qed.

Lemma afterLastSlash_idem (path : string) :
  afterLastSlash (afterLastSlash path) = afterLastSlash path.
Proof. apply afterLastSlash_none, afterLastSlash_no_slash. Qed.

Lemma HasPrefix_take (n : nat) (s sep : string) :
  GoString.HasPrefix (GoString.take n s) sep = true -> GoString.HasPrefix s sep = true.
Proof.
  revert n s. induction sep as [|a sep IH]; intros n s H; [reflexivity|].
  destruct n as [|n], s as [|b s]; try discriminate H.
  cbn [GoString.take GoString.HasPrefix] in H |- *.
  destruct (Ascii.eqb a b); [by eapply IH|discriminate].
Qed.

(** What stands before the first separator holds no separator. *)
Lemma Index_take_absent (s sep : string) :
  sep <> "" -> 0 <= GoString.Index s sep ->
  GoString.Index (GoString.take (Z.to_nat (GoString.Index s sep)) s) sep < 0.
Proof.
  intros Hsep. induction s as [|c s IH]; intros H.
  - destruct sep; [done|]. cbn in H. lia.
  - cbn [GoString.Index] in H |- *.
    destruct (GoString.HasPrefix (String c s) sep) eqn:Hp.
    + destruct sep; [done|]. reflexivity.
    + destruct (Z.ltb_spec (GoString.Index s sep) 0) as [Hlt|Hge]; [lia|].
      replace (Z.to_nat (GoString.Index s sep + 1))
        with (S (Z.to_nat (GoString.Index s sep))) by lia.
      cbn [GoString.take GoString.Index].
      destruct (GoString.HasPrefix (String c (GoString.take _ s)) sep) eqn:Hp'.
      * apply (HasPrefix_take (S (Z.to_nat (GoString.Index s sep))) (String c s)) in Hp'.
        congruence.
      * specialize (IH Hge).
        destruct (Z.ltb_spec (GoString.Index (GoString.take (Z.to_nat (GoString.Index s sep)) s) sep) 0);
          lia.
Qed.

(** The first two of three parts hold no separator. *)
Lemma SplitN_3_parts (s sep a b c : string) :
  sep <> "" -> GoString.SplitN s sep 3 = [a; b; c] ->
  GoString.Index a sep < 0 /\ GoString.Index b sep < 0.
Proof.
  intros Hsep. unfold GoString.SplitN.
  destruct (_ - 1)%nat as [|[|k]]; cbn [GoString.genSplit_loop]; try discriminate.
  - destruct (Z.ltb_spec (GoString.Index s sep) 0); discriminate.
  - destruct (Z.ltb_spec (GoString.Index s sep) 0) as [|H1]; [discriminate|].
    set (r := GoString.drop _ s).
    destruct (Z.ltb_spec (GoString.Index r sep) 0) as [|H2]; [discriminate|].
    intros H. injection H as <- <- _.
    split; by apply Index_take_absent.
Qed.

(** X4: an index entry leads back to its record. On a table with plain
    names and for an id without a slash, the tuple parsed from the entry
    path is accepted by [PathFromIndex] of the entry's own table, which
    returns the record path [Table_Path] of the id, and is refused with
    ADB-0032 by every table of another database or name. *)
Theorem Index_entry_resolves (unicodeLower : string -> string) (i : Index)
    (fieldValue id dir : string) :
  plain_name (Table_Database (Index_Table i)) = true ->
  plain_name (Table_Name (Index_Table i)) = true ->
  plain_id id = true ->
  Index_PathNoId unicodeLower i fieldValue = Done dir ->
  exists path tuple,
    Index_Path unicodeLower i fieldValue id = Done path
    /\ DatabaseTableIdTupleFromPath path = Ok tuple
    /\ Table_PathFromIndex (Index_Table i) tuple = (Table_Path (Index_Table i) id, None)
    /\ forall t',
         Table_Database t' <> Table_Database (Index_Table i)
         \/ Table_Name t' <> Table_Name (Index_Table i) ->
         Table_PathFromIndex t' tuple = ("", Some (ADB_0032 tuple)).
Proof.
  intros Hd Hn Hid Hdir. unfold Index_Path. rewrite Hdir.
  eexists. eexists. split; [reflexivity|].
  split; [by apply DatabaseTableIdTupleFromPath_entry|].
  unfold Table_PathFromIndex, Table_Path. cbn [Tuple_Database Tuple_Table Tuple_Id].
  split.
  - by rewrite !String.eqb_refl.
  - intros t' [H|H].
    + destruct (String.eqb_spec (Table_Database (Index_Table i)) (Table_Database t'));
        [congruence|reflexivity].
    + destruct (String.eqb_spec (Table_Name (Index_Table i)) (Table_Name t'));
        [congruence|]. by rewrite orb_true_r.
Qed.

Lemma Index_entry_resolves_witness :
  exists path tuple,
    Index_Path ascii_only status_index "SHIPPED" "123" = Done path
    /\ DatabaseTableIdTupleFromPath path = Ok tuple
    /\ Table_PathFromIndex shop_orders tuple = ("shop/orders/data/123.json", None)
    /\ forall t',
         Table_Database t' <> "shop" \/ Table_Name t' <> "orders" ->
         Table_PathFromIndex t' tuple = ("", Some (ADB_0032 tuple)).
Proof.
  apply (Index_entry_resolves ascii_only status_index "SHIPPED" "123"
           "shop/orders/indices/status/sh/shipped"); reflexivity.
Defined.

(** X5: in a tuple that [DatabaseTableIdTupleFromPath] returns, database
    and table hold no separator, no component holds a slash, and the three
    components joined by the separator are the file name of the path (so
    only the id can hold a separator). *)
Theorem parsed_tuple_components (path : string) (tuple : DatabaseTableIdTuple) :
  DatabaseTableIdTupleFromPath path = Ok tuple ->
  GoString.Contains (Tuple_Database tuple) "___" = false
  /\ GoString.Contains (Tuple_Table tuple) "___" = false
  /\ GoString.Contains (Tuple_Database tuple) "/" = false
  /\ GoString.Contains (Tuple_Table tuple) "/" = false
  /\ GoString.Contains (Tuple_Id tuple) "/" = false
  /\ afterLastSlash path
     = Tuple_Database tuple +:+ "___" +:+ Tuple_Table tuple +:+ "___" +:+ Tuple_Id tuple.
Proof.
  intros H. apply DatabaseTableIdTupleFromPath_Ok in H as [HJ HS].
  apply SplitN_3_parts in HS as [H1 H2]; [|discriminate].
  pose proof (afterLastSlash_no_slash path) as Hs. rewrite HJ, !has_byte_app in Hs.
  apply orb_false_iff in Hs as [Hs1 Hs]. apply orb_false_iff in Hs as [_ Hs].
  apply orb_false_iff in Hs as [Hs2 Hs]. apply orb_false_iff in Hs as [_ Hs3].
  unfold GoString.Contains at 1 2. rewrite !Contains_byte.
  repeat split; try assumption; apply Z.leb_gt; lia.
Qed.

Lemma parsed_tuple_components_witness :
  GoString.Contains "shop" "___" = false
  /\ GoString.Contains "orders" "___" = false
  /\ GoString.Contains "shop" "/" = false
  /\ GoString.Contains "orders" "/" = false
  /\ GoString.Contains "12___3" "/" = false
  /\ afterLastSlash "sh/shipped/shop___orders___12___3"
     = "shop" +:+ "___" +:+ "orders" +:+ "___" +:+ "12___3".
Proof.
  apply (parsed_tuple_components "sh/shipped/shop___orders___12___3"
           {| Tuple_Database := "shop"; Tuple_Table := "orders"; Tuple_Id := "12___3" |}).
  reflexivity.
Defined.

(** X6: only the file name counts. Whatever directory is put in front of a
    path, the parse gives the same tuple or the same error, and parsing the
    file name alone gives it too. *)
Theorem DatabaseTableIdTupleFromPath_file_name (dir path : string) :
  DatabaseTableIdTupleFromPath (dir +:+ "/" +:+ path) = DatabaseTableIdTupleFromPath path
  /\ DatabaseTableIdTupleFromPath (afterLastSlash path) = DatabaseTableIdTupleFromPath path.
Proof.
  split; [apply DatabaseTableIdTupleFromPath_app|].
  unfold DatabaseTableIdTupleFromPath. by rewrite afterLastSlash_idem.
Qed.

(** X7: record paths do not collide. On tables whose database and name
    hold no slash, [Path] determines database, name and id, and so does
    [IndicesPath]; in particular tables of different databases never share a
    path. *)
Theorem Table_Path_injective (t t' : Table) (id id' : string) :
  GoString.Contains (Table_Database t) "/" = false ->
  GoString.Contains (Table_Name t) "/" = false ->
  GoString.Contains (Table_Database t') "/" = false ->
  GoString.Contains (Table_Name t') "/" = false ->
  (Table_Path t id = Table_Path t' id' ->
   Table_Database t = Table_Database t' /\ Table_Name t = Table_Name t' /\ id = id')
  /\ (Table_IndicesPath t id = Table_IndicesPath t' id' ->
      Table_Database t = Table_Database t' /\ Table_Name t = Table_Name t' /\ id = id').
Proof.
  rewrite !Contains_byte. intros Hd Hn Hd' Hn'.
  unfold Table_Path, Table_IndicesPath, Table_pathPrefix.
  split; intros H; rewrite !str_app_assoc in H;
    apply str_app_slash_inj in H as [E1 H]; try assumption;
    change "/data" with ("/" +:+ "data") in H; rewrite !str_app_assoc in H;
    apply str_app_slash_inj in H as [E2 H]; try assumption;
    apply String.app_inj, String.app_inj, str_app_inj_r in H; auto.
Qed.

Lemma Table_Path_injective_witness :
  Table_Database shop_orders = Table_Database (NewTable "shop" "orders" [])
  /\ Table_Name shop_orders = Table_Name (NewTable "shop" "orders" [])
  /\ "1" = "1".
Proof.
  apply (Table_Path_injective shop_orders (NewTable "shop" "orders" []) "1" "1");
    reflexivity.
Defined.

(** X8: a record path is never an indices path, whatever the tables and
    the ids: the two end differently. *)
Theorem Table_Path_not_IndicesPath (t t' : Table) (id id' : string) :
  Table_Path t id <> Table_IndicesPath t' id'.
Proof.
  unfold Table_Path, Table_IndicesPath. intros H.
  apply (f_equal (fun s => GoString.HasSuffix s "n")) in H.
  rewrite <- !str_app_assoc in H.
  rewrite (HasSuffix_app _ ".json"), (HasSuffix_app _ ".indices") in H by discriminate.
  discriminate H.
Qed.

(** X9: the directories of two ASCII field values under one index are the
    same exactly when the values agree after padding and lower-casing: values
    that differ in more than case and padding never share a directory. *)
Theorem Index_PathNoId_same_directory (unicodeLower : string -> string) (i : Index)
    (a b : string) :
  GoString.isASCII a = true -> GoString.isASCII b = true ->
  (Index_PathNoId unicodeLower i a = Index_PathNoId unicodeLower i b
   <-> GoString.lowerASCII (pad_loop 2 a) = GoString.lowerASCII (pad_loop 2 b)).
Proof.
  intros Ha Hb. rewrite !Index_PathNoId_ascii, !lowerASCII_pad_loop by assumption.
  pose proof (pad_loop_length (GoString.lowerASCII a)) as La.
  pose proof (pad_loop_length (GoString.lowerASCII b)) as Lb.
  destruct (take_2_length _ La) as [La' _]. destruct (take_2_length _ Lb) as [Lb' _].
  assert (String.length (GoString.take 2 (pad_loop 2 (GoString.lowerASCII a)))
          = String.length (GoString.take 2 (pad_loop 2 (GoString.lowerASCII b)))) as HL
    by lia.
  clear La Lb La' Lb'.
  generalize dependent (pad_loop 2 (GoString.lowerASCII b)).
  generalize dependent (pad_loop 2 (GoString.lowerASCII a)).
  intros va vb HL. split; [|by intros ->].
  intros H. injection H as H.
  apply String.app_inj, String.app_inj in H.
  destruct (str_app_inj_length _ _ _ _ HL H) as [_ H'].
  by apply String.app_inj in H'.
Qed.

Lemma Index_PathNoId_same_directory_witness :
  Index_PathNoId ascii_only status_index "Shipped" = Index_PathNoId ascii_only status_index "SHIPPED"
  <-> GoString.lowerASCII (pad_loop 2 "Shipped") = GoString.lowerASCII (pad_loop 2 "SHIPPED").
Proof.
  apply (Index_PathNoId_same_directory ascii_only status_index "Shipped" "SHIPPED");
    reflexivity.
Defined.

(** *** Decimal numbers *)

Lemma decimal_value_ge (d : Decimal.uint) (acc : Z) : 0 <= acc -> acc <= decimal_value d acc.
Proof.
  revert acc. induction d as [|d IH|d IH|d IH|d IH|d IH|d IH|d IH|d IH|d IH|d IH];
    intros acc H; cbn [decimal_value]; [lia|..];
    match goal with |- _ <= decimal_value _ ?a => specialize (IH a) end; lia.
Qed.

Lemma decimal_value_pos (d : Decimal.uint) (acc : positive) :
  decimal_value d (Z.pos acc) = Z.pos (Pos.of_uint_acc d acc).
Proof.
  revert acc. induction d as [|d IH|d IH|d IH|d IH|d IH|d IH|d IH|d IH|d IH|d IH];
    intros acc; cbn [decimal_value Pos.of_uint_acc]; [reflexivity|..];
    rewrite <- IH; f_equal; lia.
Qed.

Lemma decimal_value_0 (d : Decimal.uint) : decimal_value d 0 = Z.of_N (Pos.of_uint d).
Proof.
  induction d as [|d IH|d IH|d IH|d IH|d IH|d IH|d IH|d IH|d IH|d IH];
    cbn [decimal_value Pos.of_uint]; [reflexivity|exact IH|..];
    cbn [Z.mul Z.add Z.of_N]; apply decimal_value_pos.
Qed.

Lemma all_digits_string_of_uint (d : Decimal.uint) :
  all_digits (NilEmpty.string_of_uint d) = true.
Proof. induction d; cbn [NilEmpty.string_of_uint all_digits]; [reflexivity|..]; exact IHd. Qed.

(** One round of the loop of [ParseUint] on a digit that does not
    overflow. *)
Lemma ParseUint_loop_step (c : ascii) (k : Z) (s : string) (n : Z) :
  Z.of_N (N_of_ascii c) = 48 + k -> 0 <= k <= 9 -> 0 <= n ->
  10 * n + k <= GoLib.maxUint64 ->
  GoLib.ParseUint_loop (String c s) n = GoLib.ParseUint_loop s (10 * n + k).
Proof.
  intros Hc Hk Hn Hmax. cbn [GoLib.ParseUint_loop]. rewrite Hc.
  unfold GoLib.cutoff, GoLib.maxUint64 in *.
  change (2 ^ 64) with 18446744073709551616 in *.
  change ((18446744073709551616 - 1) / 10 + 1) with 1844674407370955162.
  destruct (Z.leb_spec 48 (48 + k)); [|lia].
  destruct (Z.leb_spec (48 + k) 57); [|lia]. cbn [andb].
  destruct (Z.leb_spec 1844674407370955162 n); [lia|].
  rewrite (Z.mod_small (n * 10)) by lia.
  replace (48 + k - 48) with k by lia.
  rewrite (Z.mod_small (n * 10 + k)) by lia.
  destruct (Z.ltb_spec (n * 10 + k) (n * 10)); [lia|].
  destruct (Z.ltb_spec (18446744073709551616 - 1) (n * 10 + k)); [lia|].
  cbn [orb]. f_equal. lia.
Qed.

Ltac parse_digit IH :=
  lazymatch goal with
  | |- GoLib.ParseUint_loop (String ?c ?s) ?n = (decimal_value ?d ?a, None) =>
      pose proof (decimal_value_ge d a ltac:(lia));
      rewrite (ParseUint_loop_step c (a - 10 * n) s n) by (try (cbn; lia); lia);
      replace (10 * n + (a - 10 * n)) with a by lia;
      apply IH; lia
  end.

(** [ParseUint] reads back the digits of a number that fits 64 bits. *)
Lemma ParseUint_loop_digits (d : Decimal.uint) (n : Z) :
  0 <= n -> decimal_value d n <= GoLib.maxUint64 ->
  GoLib.ParseUint_loop (NilEmpty.string_of_uint d) n = (decimal_value d n, None).
Proof.
  revert n. induction d as [|d IH|d IH|d IH|d IH|d IH|d IH|d IH|d IH|d IH|d IH];
    intros n Hn Hmax; cbn [NilEmpty.string_of_uint decimal_value] in *;
    [reflexivity|parse_digit IH ..].
Qed.

Lemma FormatInt_digits (z : Z) :
  0 <= z <= GoLib.maxUint64 ->
  GoString.FormatInt z <> "" /\ all_digits (GoString.FormatInt z) = true
  /\ GoLib.ParseUint (GoString.FormatInt z) = (z, None).
Proof.
  intros [H0 Hmax]. destruct z as [|p|p]; [by repeat split| |lia].
  unfold GoString.FormatInt. cbn [Z.to_int NilZero.string_of_int].
  pose proof (DecimalPos.Unsigned.to_uint_nonnil p) as Hnil.
  pose proof (DecimalPos.Unsigned.of_to p) as Hof.
  pose proof (all_digits_string_of_uint (Pos.to_uint p)) as Hd.
  pose proof (ParseUint_loop_digits (Pos.to_uint p) 0 ltac:(lia)) as HP.
  rewrite decimal_value_0, Hof in HP. specialize (HP Hmax). cbn [Z.of_N] in HP.
  destruct (Pos.to_uint p) eqn:E; [done|..];
    (split; [discriminate|split; [exact Hd|exact HP]]).
Qed.

Lemma all_digits_has_byte (c : ascii) (s : string) :
  all_digits s = true ->
  (48 <=? Z.of_N (N_of_ascii c)) && (Z.of_N (N_of_ascii c) <=? 57) = false ->
  has_byte c s = false.
Proof.
  intros Hs Hc. induction s as [|b s IH]; [reflexivity|].
  cbn [all_digits has_byte] in *. apply andb_true_iff in Hs as [Hb Hs].
  rewrite (IH Hs), orb_false_r. destruct (Ascii.eqb_spec c b) as [->|]; [|reflexivity].
  congruence.
Qed.

Lemma Index_has_byte (c : ascii) (sep s : string) :
  has_byte c s = false -> GoString.Index s (String c sep) < 0.
Proof.
  induction s as [|b s IH]; intros H; [reflexivity|].
  cbn [has_byte] in H. apply orb_false_iff in H as [Hb H]. specialize (IH H).
  cbn [GoString.Index GoString.HasPrefix]. rewrite Hb.
  destruct (Z.ltb_spec (GoString.Index s (String c sep)) 0); lia.
Qed.

Lemma HasSuffix_has_byte (c : ascii) (s : string) :
  has_byte c s = false -> GoString.HasSuffix s (String c "") = false.
Proof.
  induction s as [|b [|b' s] IH]; intros H; [reflexivity| |].
  - cbn [has_byte] in H. apply orb_false_iff in H as [Hb _].
    unfold GoString.HasSuffix. cbn. rewrite Ascii.eqb_sym in Hb. by rewrite Hb.
  - rewrite HasSuffix_cons. apply IH. cbn [has_byte] in H |- *.
    by apply orb_false_iff in H as [_ H].
Qed.

Lemma trimRightByte_id (s : string) (c : ascii) :
  GoString.HasSuffix s (String c "") = false -> GoLib.trimRightByte s c = s.
Proof.
  induction s as [|b [|b' s] IH]; intros H; [reflexivity| |].
  - unfold GoString.HasSuffix in H. cbn in H. cbn [GoLib.trimRightByte].
    by destruct (Ascii.eqb b c).
  - rewrite HasSuffix_cons in H. specialize (IH H).
    change (GoLib.trimRightByte (String b (String b' s)) c)
      with (match GoLib.trimRightByte (String b' s) c with
            | EmptyString => if Ascii.eqb b c then EmptyString else String b EmptyString
            | r => String b r
            end).
    by rewrite IH.
Qed.

Lemma trimLeftByte_digits (s rest : string) :
  s <> "" -> all_digits s = true -> GoLib.trimLeftByte (s +:+ rest) "/" = s +:+ rest.
Proof.
  intros Hne Hd. destruct s as [|b s]; [done|]. rewrite str_app_cons.
  cbn [GoLib.trimLeftByte]. destruct (Ascii.eqb_spec b "/") as [->|]; [|reflexivity].
  discriminate Hd.
Qed.

(** A string of digits, the separator and an id without separator split
    into the two. *)
Lemma Split_timestamp_id (ts id : string) :
  ts <> "" -> all_digits ts = true -> GoString.Index id "___" < 0 ->
  GoString.Split (ts +:+ "___" +:+ id) "___" = [ts; id].
Proof.
  intros Hne Hd Hid. unfold GoString.Split.
  assert (has_byte "_" ts = false) as Hu by (by apply all_digits_has_byte).
  pose proof (Index_after_name ts id (Index_has_byte "_" "__" ts Hu)
                (HasSuffix_has_byte "_" ts Hu)) as HI.
  rewrite str_length_app. destruct ts as [|b ts]; [done|].
  cbn [String.length Nat.add GoString.genSplit_loop].
  rewrite HI, Nat2Z.id.
  destruct (Z.ltb_spec (Z.of_nat (String.length (String b ts))) 0); [lia|].
  rewrite take_app_length, drop_add, drop_app_length.
  change (GoString.drop 3 ("___" +:+ id)) with id.
  f_equal. destruct (_ + _)%nat; [reflexivity|]. cbn [GoString.genSplit_loop].
  destruct (Z.ltb_spec (GoString.Index id "___") 0); [reflexivity|lia].
Qed.

(** The path of a log entry read back, on the string itself. *)
Lemma transaction_path_read_back (ts id : string) (n : Z) :
  ts <> "" -> all_digits ts = true -> GoLib.ParseUint ts = (n, None) ->
  GoString.Index id "___" < 0 -> GoString.HasSuffix id "/" = false ->
  GetIdAndTimeoutMicrosFromPath
    (TRANSACTIONS_ROOT +:+ ts +:+ TIMESTAMP_ID_SEPARATOR +:+ id)
  = inl (id, n).
Proof.
  intros Hne Hd HP Hid Hs. unfold GetIdAndTimeoutMicrosFromPath.
  destruct (Nat.ltb_spec (String.length (TRANSACTIONS_ROOT +:+ ts +:+ TIMESTAMP_ID_SEPARATOR +:+ id))
              (String.length TRANSACTIONS_ROOT)) as [H|_].
  { rewrite str_length_app in H. lia. }
  rewrite drop_app_length. unfold GoLib.Trim, TIMESTAMP_ID_SEPARATOR.
  rewrite trimRightByte_id.
  - rewrite trimLeftByte_digits by assumption.
    rewrite Split_timestamp_id by assumption.
    cbn [length Nat.eqb negb nth]. by rewrite HP.
  - rewrite HasSuffix_app by discriminate.
    destruct id as [|c id]; [reflexivity|].
    by rewrite (HasSuffix_app "___" (String c id)).
Qed.

Lemma ParseUint_loop_range (s : string) (n0 n : Z) :
  0 <= n0 <= GoLib.maxUint64 -> GoLib.ParseUint_loop s n0 = (n, None) ->
  0 <= n <= GoLib.maxUint64.
Proof.
  revert n0. induction s as [|c s IH]; intros n0 Hn0 H.
  - cbn in H. by injection H as <-.
  - cbn [GoLib.ParseUint_loop] in H.
    destruct ((48 <=? Z.of_N (N_of_ascii c)) && (Z.of_N (N_of_ascii c) <=? 57));
      [|discriminate H].
    destruct (GoLib.cutoff <=? n0); [discriminate H|].
    set (m := (n0 * 10) mod 2 ^ 64) in H.
    set (n1 := (m + (Z.of_N (N_of_ascii c) - 48)) mod 2 ^ 64) in H.
    destruct (n1 <? m); [discriminate H|]. cbn [orb] in H.
    destruct (Z.ltb_spec GoLib.maxUint64 n1) as [|Hle]; [discriminate H|].
    apply (IH n1); [|exact H]. split; [|exact Hle].
    subst n1. apply Z.mod_pos_bound. lia.
Qed.

Lemma Split_two_parts (s sep a b : string) :
  sep <> "" -> GoString.Split s sep = [a; b] -> GoString.Index b sep < 0.
Proof.
  intros Hsep. unfold GoString.Split.
  destruct (String.length s) as [|k] eqn:EL; cbn [GoString.genSplit_loop]; [discriminate|].
  destruct (Z.ltb_spec (GoString.Index s sep) 0) as [|Hm]; [discriminate|].
  pose proof (Index_bound s sep Hm) as Hb.
  set (r := GoString.drop _ s). intros H. injection H as _ H.
  destruct k as [|k]; cbn [GoString.genSplit_loop] in H.
  - injection H as <-. assert (String.length r = 0%nat) as Hr.
    { subst r. rewrite length_drop. destruct sep; [done|]. simpl in *. lia. }
    destruct r; [|discriminate Hr]. destruct sep; [done|reflexivity].
  - revert H. destruct (Z.ltb_spec (GoString.Index r sep) 0) as [Hlt|Hge]; intros H.
    + by injection H as <-.
    + injection H as _ H. by apply genSplit_loop_nonempty in H.
Qed.

Section TransactionPathFacts.

Context {any : Type}.

Implicit Types (t : Transaction any).

(** X10: the path of a transaction's log entry reads back. For a
    transaction whose start is not negative and whose id holds no separator
    and does not end in a slash, [GetIdAndTimeoutMicrosFromPath] applied to
    [GetPath] returns the id and, as its number, the start in microseconds
    (the path holds the start, not the deadline). *)
Theorem GetPath_round_trip t :
  0 <= StartMicroseconds t <= GoLib.maxUint64 ->
  GoString.Contains (Id t) "___" = false ->
  GoString.HasSuffix (Id t) "/" = false ->
  GetIdAndTimeoutMicrosFromPath (GetPath t) = inl (Id t, StartMicroseconds t).
Proof.
  intros Hs Hid Hsl. destruct (FormatInt_digits _ Hs) as (Hne & Hd & HP).
  unfold GoString.Contains in Hid. apply Z.leb_gt in Hid.
  unfold GetPath. by apply transaction_path_read_back.
Qed.

(** X11: transactions with different ids or different starts have
    different log paths (under the same conditions on start and id). *)
Theorem GetPath_injective t t' :
  0 <= StartMicroseconds t <= GoLib.maxUint64 ->
  GoString.Contains (Id t) "___" = false ->
  GoString.HasSuffix (Id t) "/" = false ->
  0 <= StartMicroseconds t' <= GoLib.maxUint64 ->
  GoString.Contains (Id t') "___" = false ->
  GoString.HasSuffix (Id t') "/" = false ->
  GetPath t = GetPath t' ->
  Id t = Id t' /\ StartMicroseconds t = StartMicroseconds t'.
Proof.
  intros Hs Hid Hsl Hs' Hid' Hsl' E.
  destruct (FormatInt_digits _ Hs) as (Hne & Hd & HP).
  destruct (FormatInt_digits _ Hs') as (Hne' & Hd' & HP').
  unfold GoString.Contains in Hid, Hid'. apply Z.leb_gt in Hid, Hid'.
  pose proof (transaction_path_read_back _ _ _ Hne Hd HP Hid Hsl) as R.
  pose proof (transaction_path_read_back _ _ _ Hne' Hd' HP' Hid' Hsl') as R'.
  fold (GetPath t) in R. fold (GetPath t') in R'. rewrite E, R' in R.
  by injection R as -> ->.
Qed.

End TransactionPathFacts.

(** X12: whatever the path, what [GetIdAndTimeoutMicrosFromPath] returns
    is an id without separator and a number that fits 64 bits, and it
    returns only for paths of at least the 13 bytes it cuts off. *)
Theorem GetIdAndTimeoutMicrosFromPath_result (path id : string) (n : Z) :
  GetIdAndTimeoutMicrosFromPath path = inl (id, n) ->
  (String.length TRANSACTIONS_ROOT <= String.length path)%nat
  /\ 0 <= n <= GoLib.maxUint64
  /\ GoString.Contains id TIMESTAMP_ID_SEPARATOR = false.
Proof.
  unfold GetIdAndTimeoutMicrosFromPath.
  destruct (Nat.ltb_spec (String.length path) (String.length TRANSACTIONS_ROOT)) as [|HL];
    [discriminate|].
  set (filename := GoLib.Trim _ _).
  destruct (GoString.Split filename TIMESTAMP_ID_SEPARATOR) as [|a [|b [|? ?]]] eqn:ES;
    try discriminate.
  cbn [length Nat.eqb negb nth].
  destruct (GoLib.ParseUint a) as [m [err|]] eqn:EP; [discriminate|].
  intros H. injection H as <- <-. split; [exact HL|]. split.
  - destruct a as [|c a]; [discriminate EP|].
    apply (ParseUint_loop_range (String c a) 0); [|exact EP].
    unfold GoLib.maxUint64. lia.
  - apply Split_two_parts in ES; [|discriminate].
    unfold GoString.Contains. apply Z.leb_gt. lia.
Qed.

Lemma GetPath_round_trip_witness :
  GetIdAndTimeoutMicrosFromPath (GetPath (sample_tx "InProgress"))
  = inl ("tx-0", 1700000000000000).
Proof. apply (GetPath_round_trip (sample_tx "InProgress")); [vm_compute; split; discriminate|reflexivity..]. Defined.

Lemma GetPath_injective_witness :
  Id (sample_tx "InProgress") = Id (sample_tx "Committing")
  /\ StartMicroseconds (sample_tx "InProgress") = StartMicroseconds (sample_tx "Committing").
Proof.
  apply (GetPath_injective (sample_tx "InProgress") (sample_tx "Committing"));
    try reflexivity; vm_compute; split; discriminate.
Defined.

Lemma GetIdAndTimeoutMicrosFromPath_result_witness :
  (String.length TRANSACTIONS_ROOT <= String.length "transactions//17___tx-0/")%nat
  /\ 0 <= 17 <= GoLib.maxUint64
  /\ GoString.Contains "tx-0" TIMESTAMP_ID_SEPARATOR = false.
Proof.
  apply (GetIdAndTimeoutMicrosFromPath_result "transactions//17___tx-0/" "tx-0" 17).
  reflexivity.
Defined.

(** *** Runs of calls and the state of the log *)

Section StepLogFacts.

Context {any : Type}.
Context (json_Marshal : any -> result string).

Implicit Types (t : Transaction any) (w : World any).

(** One call: a nil return appends the address of one new step object,
    any other return changes neither the transaction nor the step objects. *)
Lemma AddStep_call_effect (c : StepCall any) t w r t' w' :
  AddStep_call json_Marshal c t w = (r, t', w') ->
  (if is_nil r
   then exists s, t' = {| Id := Id t; Etag := Etag t;
                          StartMicroseconds := StartMicroseconds t;
                          TimeoutMicroseconds := TimeoutMicroseconds t;
                          Steps := Steps t ++ [length (steps_store w)];
                          Cache := Cache t; State := State t |}
                  /\ steps_store w' = steps_store w ++ [s]
                  /\ Step_UserMetadata s !! TX_ID = Some (Id t)
                  /\ untouched s
   else t' = t /\ steps_store w' = steps_store w).
Proof.
  unfold AddStep_call. intros H.
  pose proof (IsOk_steps_store t w) as Hs.
  destruct (AddStep_cases json_Marshal (call_Type c) (call_ContentType c) (call_Path c)
              (call_InitialETag c) (call_Entity c) t w)
    as [[msg E]|[[err' E]|[E [[err' M]|[data M]]]]].
  - rewrite (AddStep_IsOk_panic _ _ _ _ _ _ _ _ _ _ E) in H. injection H as <- <- <-.
    by rewrite Hs.
  - rewrite (AddStep_IsOk_error _ _ _ _ _ _ _ _ _ _ E) in H. injection H as <- <- <-.
    by rewrite Hs.
  - rewrite (AddStep_Marshal_error _ _ _ _ _ _ _ _ _ _ E M) in H. injection H as <- <- <-.
    cbn [is_nil time_Now snd steps_store]. by rewrite Hs.
  - rewrite (AddStep_success _ _ _ _ _ _ _ _ _ _ E M) in H. injection H as <- <- <-.
    cbn [is_nil new_step time_Now snd steps_store]. rewrite Hs.
    eexists. split; [reflexivity|]. split; [reflexivity|]. by repeat split.
Qed.

(** X13: in any run of calls, failed ones included, there is one result
    per call, the log grows by exactly the number of calls that returned nil,
    one step object is allocated for each of them, and every other field of
    the transaction is at the end what it was at the start. *)
Theorem AddSteps_count (calls : list (StepCall any)) t w rs t' w' :
  AddSteps json_Marshal calls t w = (rs, t', w') ->
  length rs = length calls
  /\ length (Steps t') = (length (Steps t) + count_nil rs)%nat
  /\ length (steps_store w') = (length (steps_store w) + count_nil rs)%nat
  /\ Id t' = Id t /\ Etag t' = Etag t
  /\ StartMicroseconds t' = StartMicroseconds t
  /\ TimeoutMicroseconds t' = TimeoutMicroseconds t
  /\ State t' = State t /\ Cache t' = Cache t.
Proof.
  revert t w rs t' w'. induction calls as [|c calls IH]; intros t w rs t' w' H.
  - injection H as <- <- <-. cbn [count_nil length]. repeat split; lia.
  - cbn [AddSteps] in H.
    destruct (AddStep_call json_Marshal c t w) as [[r t1] w1] eqn:E1.
    destruct (AddSteps json_Marshal calls t1 w1) as [[rs2 t2] w2] eqn:E2.
    injection H as <- <- <-.
    destruct (IH _ _ _ _ _ E2) as (L1 & L2 & L3 & F1 & F2 & F3 & F4 & F5 & F6).
    apply AddStep_call_effect in E1. cbn [count_nil length].
    rewrite L1, L2, L3, F1, F2, F3, F4, F5, F6.
    destruct (is_nil r).
    + destruct E1 as (s & -> & -> & _). cbn [Steps Id Etag StartMicroseconds
        TimeoutMicroseconds State Cache]. rewrite !length_app. cbn [length].
      repeat split; lia.
    + destruct E1 as [-> ->]. repeat split; lia.
Qed.

(** X14: a transaction in state Committing or RollingBack is frozen for
    [AddStep]. Every call of a run returns the error of that state, and
    transaction, step objects, clock and identifier source are at the end
    exactly what they were: not even the clock is read. *)
Theorem AddSteps_terminal (calls : list (StepCall any)) t w (err : error) :
  (State t = "Committing" /\ err = TransactionAlreadyCommittedError)
  \/ (State t = "RollingBack" /\ err = TransactionAlreadyRolledBackError) ->
  AddSteps json_Marshal calls t w = (replicate (length calls) (Done (Some err)), t, w).
Proof.
  intros H.
  assert (IsOk t w = (Done (Some err), w)) as E.
  { unfold IsOk. by destruct H as [[-> ->]|[-> ->]]. }
  induction calls as [|c calls IH]; [reflexivity|].
  cbn [AddSteps]. unfold AddStep_call.
  rewrite (AddStep_IsOk_error _ _ _ _ _ _ _ _ _ _ E), IH. reflexivity.
Qed.

(** X15: the log stays in order. The log of a new transaction is in
    order, and a run of calls keeps it so: the pointers of [Steps] stay
    pairwise different, each one is the address of a step object, and that
    step names the transaction in its Tx-Id metadata; and if no step of the
    log was touched by an executor before the run, none is after it
    (not executed, no final ETag or version id, empty initial version id). *)
Theorem log_in_order_kept :
  (forall (timeout : Duration) w,
      log_in_order (fst (NewTransaction timeout w)) (snd (NewTransaction timeout w)))
  /\ (forall (calls : list (StepCall any)) t w rs t' w',
         AddSteps json_Marshal calls t w = (rs, t', w') ->
         log_in_order t w ->
         log_in_order t' w'
         /\ ((forall p s, p ∈ Steps t -> steps_store w !! p = Some s -> untouched s) ->
             forall p s, p ∈ Steps t' -> steps_store w' !! p = Some s -> untouched s)).
Proof.
  split.
  - intros timeout w. split; [constructor|]. cbn [NewTransaction time_Now uuid_New_String fst Steps].
    intros p Hp. by apply elem_of_nil in Hp.
  - induction calls as [|c calls IH]; intros t w rs t' w' H Hin.
    + injection H as <- <- <-. auto.
    + cbn [AddSteps] in H.
      destruct (AddStep_call json_Marshal c t w) as [[r t1] w1] eqn:E1.
      destruct (AddSteps json_Marshal calls t1 w1) as [[rs2 t2] w2] eqn:E2.
      injection H as <- <- <-.
      apply AddStep_call_effect in E1.
      assert (log_in_order t1 w1
              /\ ((forall p s, p ∈ Steps t -> steps_store w !! p = Some s -> untouched s) ->
                  forall p s, p ∈ Steps t1 -> steps_store w1 !! p = Some s -> untouched s))
        as [Hin1 Hun1].
      { destruct (is_nil r).
        - destruct E1 as (s & -> & HW & HM & HU). destruct Hin as [Hnd Hall].
          assert (length (steps_store w) ∉ Steps t) as Hfresh.
          { intros Hp. destruct (Hall _ Hp) as (s0 & Hs0 & _).
            apply lookup_lt_Some in Hs0. lia. }
          split; [split|].
          + cbn [Steps]. apply NoDup_app. split; [exact Hnd|]. split.
            * intros p Hp Hp'. apply list_elem_of_singleton in Hp' as ->. done.
            * apply NoDup_singleton.
          + cbn [Steps Id]. intros p Hp. rewrite HW.
            apply elem_of_app in Hp as [Hp|Hp].
            * destruct (Hall _ Hp) as (s0 & Hs0 & Hm0). exists s0. split; [|exact Hm0].
              by apply lookup_app_l_Some.
            * apply list_elem_of_singleton in Hp as ->. exists s.
              split; [by apply list_lookup_middle|exact HM].
          + cbn [Steps]. intros Hun p s0 Hp Hs0. rewrite HW in Hs0.
            apply elem_of_app in Hp as [Hp|Hp].
            * destruct (Hall _ Hp) as (s1 & Hs1 & _).
              rewrite (lookup_app_l_Some _ _ _ _ Hs1) in Hs0. injection Hs0 as <-.
              by eapply Hun.
            * apply list_elem_of_singleton in Hp as ->.
              rewrite list_lookup_middle in Hs0 by reflexivity. by injection Hs0 as <-.
        - destruct E1 as [-> HW]. split.
          + destruct Hin as [Hnd Hall]. split; [exact Hnd|]. intros p Hp. rewrite HW. auto.
          + intros Hun p s0. rewrite HW. apply Hun. }
      destruct (IH _ _ _ _ _ E2 Hin1) as [Hin2 Hun2].
      split; [exact Hin2|]. intros Hun. apply Hun2, Hun1, Hun.
Qed.

(** X16: expiry follows the clock. If the clock of a second call of [IsOk]
    is not behind that of a first one, a TimedOut of the first is a TimedOut
    of the second, and a nil of the second was a nil of the first: a
    transaction that has timed out stays timed out unless the clock is set
    back. *)
Theorem IsOk_expiry_monotone t w w' :
  clock w (ticks w) <= clock w' (ticks w') ->
  (fst (IsOk t w) = Done (Some TransactionTimedOutError) ->
   fst (IsOk t w') = Done (Some TransactionTimedOutError))
  /\ (fst (IsOk t w') = Done None -> fst (IsOk t w) = Done None).
Proof.
  intros Hc. apply UnixMicro_mono in Hc.
  destruct (String.eqb_spec (State t) "InProgress") as [E|E].
  - rewrite !(IsOk_deadline _ _ E).
    destruct (Z.gtb_spec (UnixMicro (clock w (ticks w))) (TimeoutMicroseconds t));
      destruct (Z.gtb_spec (UnixMicro (clock w' (ticks w'))) (TimeoutMicroseconds t));
      split; intros; try done; lia.
  - unfold IsOk.
    destruct (String.eqb (State t) "Committing"); [by split|].
    destruct (String.eqb (State t) "RollingBack"); [by split|].
    destruct (String.eqb_spec (State t) "InProgress"); [done|by split].
Qed.

End StepLogFacts.

Section StepContentFacts.

Context {any : Type}.
Context (json_Marshal : any -> result string).

Implicit Types (t : Transaction any) (w : World any).

(** A nil of the gate comes after one reading of the clock. *)
Lemma IsOk_nil_world t w :
  fst (IsOk t w) = Done None -> IsOk t w = (Done None, snd (time_Now w)).
Proof.
  unfold IsOk, IsExpired. cbn [time_Now fst snd].
  destruct (String.eqb (State t) "Committing"); [discriminate|].
  destruct (String.eqb (State t) "RollingBack"); [discriminate|].
  destruct (negb (String.eqb (State t) "InProgress")); [discriminate|].
  destruct (_ >? _); [discriminate|reflexivity].
Qed.

(** X17: [AddStep] returns nil exactly when the gate returns nil and the
    entity is nil or can be encoded; with a nil entity it returns just what
    the gate returns, panic included. *)
Theorem AddStep_outcome (Type_ ContentType Path InitialETag : string) (Entity : option any)
    t w :
  (fst (fst (AddStep json_Marshal Type_ ContentType Path InitialETag Entity t w)) = Done None
   <-> fst (IsOk t w) = Done None
       /\ (Entity = None \/ exists e data, Entity = Some e /\ json_Marshal e = Ok data))
  /\ (Entity = None ->
      fst (fst (AddStep json_Marshal Type_ ContentType Path InitialETag Entity t w))
      = fst (IsOk t w)).
Proof.
  destruct (AddStep_cases json_Marshal Type_ ContentType Path InitialETag Entity t w)
    as [[msg E]|[[err' E]|[E [[err' M]|[data M]]]]].
  - rewrite (AddStep_IsOk_panic _ _ _ _ _ _ _ _ _ _ E), E. cbn [fst].
    split; [split; [discriminate|by intros [? _]]|done].
  - rewrite (AddStep_IsOk_error _ _ _ _ _ _ _ _ _ _ E), E. cbn [fst].
    split; [split; [discriminate|by intros [? _]]|done].
  - rewrite (AddStep_Marshal_error _ _ _ _ _ _ _ _ _ _ E M), E. cbn [fst].
    split; [split; [discriminate|]|].
    + intros [_ [->|(e & data & -> & He)]]; cbn [encode_entity] in M; congruence.
    + intros ->. discriminate M.
  - rewrite (AddStep_success _ _ _ _ _ _ _ _ _ _ E M), E. cbn [fst].
    split; [|done]. split; [|done]. intros _. split; [done|].
    destruct Entity as [e|]; [right|by left]. by exists e, data.
Qed.

(** X18: what a successful call stores. The call reads the clock twice,
    first in the gate and then for the metadata; the new step object is the
    only change to the step objects; its payload is the encoded entity (empty
    for a nil entity), its metadata has exactly the entries Tx-Id, the id of
    the transaction, and Last-Modified, the second clock reading in
    microseconds as a decimal number, and no executor has touched it. *)
Theorem AddStep_stored_step (Type_ ContentType Path InitialETag : string)
    (Entity : option any) t w t' w' :
  AddStep json_Marshal Type_ ContentType Path InitialETag Entity t w = (Done None, t', w') ->
  ticks w' = S (S (ticks w))
  /\ exists s,
       steps_store w' = steps_store w ++ [s]
       /\ encode_entity json_Marshal Entity = Ok (Step_Data s)
       /\ (Entity = None -> Step_Data s = "")
       /\ Step_UserMetadata s
          = <[TX_ID := Id t]>
              (<[LAST_MODIFIED := GoString.FormatInt (UnixMicro (clock w (S (ticks w))))]> ∅)
       /\ dom (Step_UserMetadata s) = {[TX_ID; LAST_MODIFIED]}
       /\ Step_Type s = Type_ /\ Step_ContentType s = ContentType
       /\ Step_Path s = Path /\ Step_InitialETag s = InitialETag
       /\ Step_Entity s = Entity /\ untouched s.
Proof.
  intros H. destruct (AddStep_nil_inv _ _ _ _ _ _ _ _ _ _ H) as (w1 & data & E & M).
  rewrite (AddStep_success _ _ _ _ _ _ _ _ _ _ E M) in H. injection H as <- <-.
  pose proof (IsOk_nil_world t w) as HW. rewrite E in HW. specialize (HW eq_refl).
  injection HW as ->. cbn [new_step time_Now snd ticks steps_store clock].
  split; [reflexivity|]. eexists. split; [reflexivity|].
  cbn [make_step Step_Data Step_UserMetadata Step_Type Step_ContentType Step_Path
         Step_InitialETag Step_Entity].
  split; [exact M|]. split; [intros ->; cbn in M; congruence|].
  split; [reflexivity|]. split; [|by repeat split].
  rewrite !dom_insert_L, dom_empty_L. set_solver.
Qed.

(** X19: the executor's write. On the address of a step object,
    [SetFinalETagAndVersionId] sets the two final fields of that step and
    nothing else: the step keeps its other fields (it is not marked
    executed), every other step object, the clock and the identifier source
    are unchanged, a log in order stays in order, and a second write replaces
    the first. *)
Theorem SetFinalETagAndVersionId_frame (p : ptr) (e v : option string) w
    (s : TransactionStep any) :
  steps_store w !! p = Some s ->
  (exists s',
      steps_store (SetFinalETagAndVersionId p e v w) !! p = Some s'
      /\ Step_FinalETag s' = e /\ Step_FinalVersionId s' = v
      /\ Step_Type s' = Step_Type s /\ Step_ContentType s' = Step_ContentType s
      /\ Step_Path s' = Step_Path s /\ Step_InitialETag s' = Step_InitialETag s
      /\ Step_InitialVersionId s' = Step_InitialVersionId s
      /\ Step_UserMetadata s' = Step_UserMetadata s /\ Step_Data s' = Step_Data s
      /\ Step_Entity s' = Step_Entity s /\ Step_Executed s' = Step_Executed s)
  /\ (forall q, q <> p ->
        steps_store (SetFinalETagAndVersionId p e v w) !! q = steps_store w !! q)
  /\ length (steps_store (SetFinalETagAndVersionId p e v w)) = length (steps_store w)
  /\ clock (SetFinalETagAndVersionId p e v w) = clock w
  /\ ticks (SetFinalETagAndVersionId p e v w) = ticks w
  /\ (forall t, log_in_order t w -> log_in_order t (SetFinalETagAndVersionId p e v w))
  /\ (forall e2 v2,
        SetFinalETagAndVersionId p e2 v2 (SetFinalETagAndVersionId p e v w)
        = SetFinalETagAndVersionId p e2 v2 w).
Proof.
  intros Hs. pose proof (lookup_lt_Some _ _ _ Hs) as Hlt.
  unfold SetFinalETagAndVersionId. rewrite Hs. cbn [steps_store clock ticks uuids uuid_calls].
  split; [|split; [|split; [|split; [|split; [|split]]]]].
  - eexists. split; [by apply list_lookup_insert_eq|]. by repeat split.
  - intros q Hq. by apply list_lookup_insert_ne.
  - apply length_insert.
  - reflexivity.
  - reflexivity.
  - intros t [Hnd Hall]. split; [exact Hnd|]. intros q Hq.
    destruct (Hall q Hq) as (s0 & Hs0 & Hm). cbn [steps_store].
    destruct (decide (q = p)) as [->|Hne].
    + eexists. split; [by apply list_lookup_insert_eq|].
      cbn [Step_UserMetadata]. congruence.
    + exists s0. split; [|exact Hm]. by rewrite list_lookup_insert_ne.
  - intros e2 v2. rewrite list_lookup_insert_eq by exact Hlt.
    cbn [Step_Type Step_ContentType Step_Path Step_InitialETag Step_InitialVersionId
           Step_UserMetadata Step_Data Step_Entity Step_Executed].
    by rewrite list_insert_insert_eq.
Qed.

(** X20: the deadline of a new transaction. In microseconds it lies the
    timeout (rounded down to microseconds) after the start, or one more, the
    start being rounded down too; so it is not before the start when the
    timeout is not negative. *)
Theorem NewTransaction_deadline (timeout : Duration) w :
  timeout / 1000
  <= TimeoutMicroseconds (fst (NewTransaction timeout w))
     - StartMicroseconds (fst (NewTransaction timeout w))
  <= timeout / 1000 + 1
  /\ (0 <= timeout ->
      StartMicroseconds (fst (NewTransaction timeout w))
      <= TimeoutMicroseconds (fst (NewTransaction timeout w))).
Proof.
  cbn [NewTransaction time_Now uuid_New_String fst StartMicroseconds TimeoutMicroseconds].
  unfold UnixMicro, Time_Add. generalize (clock w (ticks w)). intros now.
  split; [|intros H; apply Z.div_le_mono; lia].
  Z.div_mod_to_equations. lia.
Qed.

End StepContentFacts.

(** *** The further properties at sample inputs *)

Lemma AddSteps_count_witness :
  let t := sample_tx "InProgress" in
  let w := sample_world 1700000000000000000 in
  let calls := [sample_call "shop/orders/data/1.json" (Some (IntValue 1));
                sample_call "shop/orders/data/2.json" (Some ChanValue);
                sample_call "shop/orders/data/3.json" None] in
  let run := AddSteps sample_Marshal calls t w in
  length run.1.1 = length calls
  /\ length (Steps run.1.2) = (length (Steps t) + count_nil run.1.1)%nat
  /\ length (steps_store run.2) = (length (steps_store w) + count_nil run.1.1)%nat
  /\ Id run.1.2 = Id t /\ Etag run.1.2 = Etag t
  /\ StartMicroseconds run.1.2 = StartMicroseconds t
  /\ TimeoutMicroseconds run.1.2 = TimeoutMicroseconds t
  /\ State run.1.2 = State t /\ Cache run.1.2 = Cache t.
Proof.
  intros t w calls run.
  apply (AddSteps_count sample_Marshal calls t w run.1.1 run.1.2 run.2). reflexivity.
Defined.

Lemma AddSteps_terminal_witness :
  AddSteps sample_Marshal
    [sample_call "shop/orders/data/1.json" (Some (IntValue 1));
     sample_call "shop/orders/data/2.json" None]
    (sample_tx "Committing") (sample_world 1700000000000000000)
  = (replicate 2 (Done (Some TransactionAlreadyCommittedError)),
     sample_tx "Committing", sample_world 1700000000000000000).
Proof.
  apply (AddSteps_terminal sample_Marshal
           [sample_call "shop/orders/data/1.json" (Some (IntValue 1));
            sample_call "shop/orders/data/2.json" None]
           (sample_tx "Committing") (sample_world 1700000000000000000)).
  left. split; reflexivity.
Defined.

Lemma IsOk_expiry_monotone_witness :
  fst (IsOk (sample_tx "InProgress") (sample_world 1700000006000000000))
  = Done (Some TransactionTimedOutError)
  /\ fst (IsOk (sample_tx "InProgress") (sample_world 1700000009000000000))
     = Done (Some TransactionTimedOutError).
Proof.
  split; [reflexivity|].
  apply (IsOk_expiry_monotone (sample_tx "InProgress")
           (sample_world 1700000006000000000) (sample_world 1700000009000000000)).
  - vm_compute. discriminate.
  - reflexivity.
Defined.

Lemma AddStep_stored_step_witness :
  let t := sample_tx "InProgress" in
  let w := sample_world 1700000000000000000 in
  let r := AddStep sample_Marshal "delete" "application/json" "shop/orders/data/1.json"
             "etag-1" None t w in
  ticks r.2 = S (S (ticks w))
  /\ exists s,
       steps_store r.2 = steps_store w ++ [s]
       /\ encode_entity sample_Marshal None = Ok (Step_Data s)
       /\ (@None sample_entity = None -> Step_Data s = "")
       /\ Step_UserMetadata s
          = <[TX_ID := Id t]>
              (<[LAST_MODIFIED := GoString.FormatInt (UnixMicro (clock w (S (ticks w))))]> ∅)
       /\ dom (Step_UserMetadata s) = {[TX_ID; LAST_MODIFIED]}
       /\ Step_Type s = "delete" /\ Step_ContentType s = "application/json"
       /\ Step_Path s = "shop/orders/data/1.json" /\ Step_InitialETag s = "etag-1"
       /\ Step_Entity s = None /\ untouched s.
Proof.
  intros t w r.
  apply (AddStep_stored_step sample_Marshal "delete" "application/json"
           "shop/orders/data/1.json" "etag-1" None t w r.1.2 r.2).
  reflexivity.
Defined.

Lemma SetFinalETagAndVersionId_frame_witness :
  let r := AddStep sample_Marshal "create" "application/json" "shop/orders/data/1.json" ""
             (Some (IntValue 1)) (sample_tx "InProgress")
             (sample_world 1700000000000000000) in
  let w' := SetFinalETagAndVersionId 0%nat (Some "etag-2") (Some "v1") r.2 in
  length (steps_store w') = length (steps_store r.2)
  /\ (Step_FinalETag <$> steps_store w' !! 0%nat) = Some (Some "etag-2")
  /\ (Step_Executed <$> steps_store w' !! 0%nat) = Some false.
Proof.
  intros r w'.
  destruct (SetFinalETagAndVersionId_frame 0%nat (Some "etag-2") (Some "v1") r.2
              (make_step (sample_tx "InProgress") 1700000000000001000 "create"
                 "application/json" "shop/orders/data/1.json" "" "1" (Some (IntValue 1))))
    as [(s' & Hs' & He & _) (_ & HL & _)]; [reflexivity|].
  split; [exact HL|]. split; reflexivity.
Defined.
